(** * RISC-V JIT backend: compilation of IR vector instructions

    A shallow embedding of [Core/MIPS/RiscV/RiscVCompVec.cpp].  Each
    [CompIR_Vec*] routine of the backend is a function from the IR
    instruction to the sequence of effects it performs on the backend
    object: calls into the float register cache ([fpr]), host instructions
    handed to the emitter, and the delegation to [CompIR_Generic].  The
    emitted host instructions are given an RV64 semantics on a register
    file, so that statements about "the value the compiled code leaves in
    a lane" can be stated and proved. *)

From Stdlib Require Import ZArith List Bool Lia.
Import ListNotations.
Open Scope Z_scope.

(** ** IR instructions *)

(** The opcodes this file switches on; every other value of the [IROp]
    enumeration is [OtherOp]. *)
Inductive IROp : Type :=
| Vec4Init | Vec4Shuffle | Vec4Blend | Vec4Mov
| Vec4Add | Vec4Sub | Vec4Mul | Vec4Div | Vec4Scale | Vec4Neg | Vec4Abs
| Vec4Dot
| Vec2Unpack16To31 | Vec2Unpack16To32 | Vec4Pack32To8 | Vec2Pack31To16
| Vec4Unpack8To32 | Vec4DuplicateUpperBitsAndShift1 | Vec4Pack31To8
| Vec2Pack32To16
| Vec4ClampToZero | Vec2ClampToZero
| OtherOp (code : Z).

(** [IRInst]: opcode, destination, two sources (8-bit fields) and the
    32-bit constant. *)
Record IRInst : Type := mkIRInst {
  op : IROp;
  dest : Z;
  src1 : Z;
  src2 : Z;
  constant : Z
}.

(** ** Host side: registers, instructions, register-cache calls *)

(** Integer registers the routines name. *)
Inductive XReg : Type := R_ZERO | SCRATCH1 | SCRATCH2.

(** Host float registers F0..F31, by number. *)
Definition FReg : Type := nat.

Definition XLEN : Z := 64.

(** The instructions the routines emit; none of them transfers control. *)
Inductive RiscVInst : Type :=
| FMV (rd rs : FReg)                      (* FMV(32, rd, rs) *)
| FMV_X_W (rd : XReg) (rs : FReg)         (* FMV(FMv::X, FMv::W, rd, rs) *)
| FMV_W_X (rd : FReg) (rs : XReg)         (* FMV(FMv::W, FMv::X, rd, rs) *)
| FCVT_S_W (rd : FReg) (rs : XReg)        (* FCVT(FConv::S, FConv::W, rd, rs) *)
| LI (rd : XReg) (bits : Z)               (* LI(rd, float constant), by bit pattern *)
| FADD (rd rs1 rs2 : FReg)
| FSUB (rd rs1 rs2 : FReg)
| FMUL (rd rs1 rs2 : FReg)
| FDIV (rd rs1 rs2 : FReg)
| FNEG (rd rs : FReg)
| FABS (rd rs : FReg)
| FMADD (rd rs1 rs2 rs3 : FReg)
| SRLI (rd rs : XReg) (sh : Z)
| SLLI (rd rs : XReg) (sh : Z)
| SRLIW (rd rs : XReg) (sh : Z)
| SRAIW (rd rs : XReg) (sh : Z)
| ANDI (rd rs : XReg) (imm : Z)
| OR (rd rs1 rs2 : XReg)
| AND (rd rs1 rs2 : XReg)
| ANDN (rd rs1 rs2 : XReg)
| NOT (rd rs : XReg).

(** Flags of [MapReg]: the default, or [MIPSMap::NOINIT]. *)
Inductive MIPSMap : Type := INIT | NOINIT.

Inductive RegCacheCall : Type :=
| SpillLock (r : Z)
| ReleaseSpillLock (r : Z)
| ReleaseSpillLocksAndDiscardTemps
| MapReg (r : Z) (flags : MIPSMap)
| MapDirtyInIn (rd rs rt : Z)
| Map4DirtyIn (rdbase rsbase : Z)
| Map4DirtyInIn (rdbase rsbase rtbase : Z)
| Map4DirtyInTemp (rdbase rsbase : Z).

(** What a routine does, in program order.  The routines return [void]:
    a trace of these effects is all there is to observe. *)
Inductive Effect : Type :=
| Fpr (c : RegCacheCall)        (* a call on the register cache *)
| Emit (i : RiscVInst)          (* an instruction handed to the emitter *)
| AssertFailed (o : IROp)       (* _assert_msg_(false, "Invalid IR inst %d", op) *)
| Generic (inst : IRInst).      (* CompIR_Generic(inst) *)

Definition emit (l : list RiscVInst) : list Effect := map Emit l.
Definition fprCalls (l : list RegCacheCall) : list Effect := map Fpr l.

(** The host instructions of a trace, and its register-cache calls. *)
Fixpoint code (t : list Effect) : list RiscVInst :=
  match t with
  | [] => []
  | Emit i :: t' => i :: code t'
  | _ :: t' => code t'
  end.

Fixpoint calls (t : list Effect) : list RegCacheCall :=
  match t with
  | [] => []
  | Fpr c :: t' => c :: calls t'
  | _ :: t' => calls t'
  end.

(** [for (int i = 0; i < 4; ++i)] *)
Definition lanes4 : list Z := [0; 1; 2; 3].

Definition forLanes {A : Type} (body : Z -> list A) : list A :=
  flat_map body lanes4.

(** DISABLE and INVALIDOP of the file's header.  CONDITIONAL_DISABLE is
    defined empty, so every routine starts at its switch. *)
Definition DISABLE (inst : IRInst) : list Effect := [Generic inst].
Definition INVALIDOP (inst : IRInst) : list Effect :=
  [AssertFailed (op inst); Generic inst].

(** Bit patterns of the float constants the routines load. *)
Definition float_one : Z := 0x3F800000.
Definition float_minus_one : Z := 0xBF800000.

(** ** In-place shuffle planning ([Vec4Shuffle] with dest = src1) *)

Definition NOT_FOUND : Z := 4.

Definition arrGet (arr : list Z) (i : Z) : Z := nth (Z.to_nat i) arr 0.

Fixpoint arrSetNat (arr : list Z) (i : nat) (v : Z) : list Z :=
  match arr, i with
  | [], _ => []
  | _ :: t, O => v :: t
  | h :: t, S i' => h :: arrSetNat t i' v
  end.

Definition arrSet (arr : list Z) (i v : Z) : list Z :=
  arrSetNat arr (Z.to_nat i) v.

(** [findIndex(arr, val, start)]: first index in [start, 4) holding [val],
    or 4. *)
Fixpoint findFrom (arr : list Z) (val : Z) (idx : Z) : Z :=
  match arr with
  | [] => idx
  | h :: t => if h =? val then idx else findFrom t val (idx + 1)
  end.

Definition findIndex (arr : list Z) (val start : Z) : Z :=
  findFrom (skipn (Z.to_nat start) arr) val start.

Section WithRegCache.

(** [R] is [fpr.R]: the host register a guest float register is mapped to
    once the routine's mapping calls are done.  [tempReg] is the register
    returned by [Map4DirtyInTemp]. *)
Variable R : Z -> FReg.
Variable tempReg : FReg.
(** [cpu_info.RiscV_Zbb] *)
Variable RiscV_Zbb : bool.

(** The [for] loop of [moveChained]: for i = 1 .. size-1 move lane
    lanes[i] into lane lanes[i-1] and update [state] alike. *)
Fixpoint chainLoop (d : Z) (lanes : list Z) (state : list Z)
  : list Z * list RiscVInst :=
  match lanes with
  | prev :: ((cur :: _) as rest) =>
      let state' := arrSet state prev (arrGet state cur) in
      let '(st, c) := chainLoop d rest state' in
      (st, FMV (R (d + prev)) (R (d + cur)) :: c)
  | _ => (state, [])
  end.

Definition moveChained (d : Z) (lanes : list Z) (rotate : bool)
    (state : list Z) : list Z * list RiscVInst :=
  let front := hd 0 lanes in
  let back := last lanes 0 in
  let firstState := arrGet state front in
  let pre := if rotate then [FMV tempReg (R (d + front))] else [] in
  let '(st, mid) := chainLoop d lanes state in
  if rotate
  then (arrSet st back firstState, pre ++ mid ++ [FMV (R (d + back)) tempReg])
  else (st, pre ++ mid).

(** One iteration of the loop over [i] in the in-place shuffle.  The
    accumulator is the [state] array, the code emitted so far, and whether
    every [_assert_(foundIn != NOT_FOUND)] evaluated so far held. *)
Definition shuffleStep (d : Z) (goal : list Z) (i : Z)
    (acc : list Z * list RiscVInst * bool) : list Z * list RiscVInst * bool :=
  let '(state, out, ok) := acc in
  (* Overlap, so if they match, nothing to do. *)
  if arrGet goal i =? arrGet state i then acc
  else
    let neededBy := findIndex goal (arrGet state i) (i + 1) in
    let foundIn := findIndex state (arrGet goal i) 0 in
    let ok' := ok && negb (foundIn =? NOT_FOUND) in
    if (neededBy =? NOT_FOUND) || (neededBy =? foundIn) then
      let '(st, c) := moveChained d [i; foundIn] (neededBy =? foundIn) state in
      (st, out ++ c, ok')
    else
      (* Maybe we can avoid a swap and move the next thing into place. *)
      let neededByDepth2 := findIndex goal (arrGet state neededBy) (i + 1) in
      if (neededByDepth2 =? NOT_FOUND) || (neededByDepth2 =? foundIn) then
        let '(st, c) :=
          moveChained d [neededBy; i; foundIn] (neededByDepth2 =? foundIn) state in
        (st, out ++ c, ok')
      else
        (* Since we only have 4 items, this is as deep as the chain could go. *)
        let neededByDepth3 :=
          findIndex goal (arrGet state neededByDepth2) (i + 1) in
        let '(st, c) :=
          moveChained d [neededByDepth2; neededBy; i; foundIn]
                      (neededByDepth3 =? foundIn) state in
        (st, out ++ c, ok').

Definition shuffleGoal (imm : Z) : list Z :=
  [Z.land (Z.shiftr imm 0) 3; Z.land (Z.shiftr imm 2) 3;
   Z.land (Z.shiftr imm 4) 3; Z.land (Z.shiftr imm 6) 3].

Definition shuffleInPlace (d imm : Z) : list Z * list RiscVInst * bool :=
  fold_left (fun acc i => shuffleStep d (shuffleGoal imm) i acc)
            lanes4 ([0; 1; 2; 3], [], true).

(** The FMVs the in-place shuffle emits. *)
Definition shuffleInPlaceCode (d imm : Z) : list RiscVInst :=
  snd (fst (shuffleInPlace d imm)).

(** ** The routines *)

(** The inner switch of [Vec4Init].  The enumeration [Vec4Init] is declared
    outside this file; its enumerators AllZERO, AllONE, AllMinusONE,
    Set_1000, Set_0100, Set_0010, Set_0001 are numbered 0..6 here, in the
    order the switch lists them.  Any other value matches no case. *)
Definition vec4InitCode (d : Z) (which : Z) : list RiscVInst :=
  let oneHot (k : Z) :=
    LI SCRATCH1 float_one ::
    forLanes (fun i => if i =? k then [FMV_W_X (R (d + i)) SCRATCH1]
                       else [FCVT_S_W (R (d + i)) R_ZERO]) in
  let splat (bits : Z) :=
    LI SCRATCH1 bits :: FMV_W_X (R d) SCRATCH1 ::
    flat_map (fun i => [FMV (R (d + i)) (R d)]) [1; 2; 3] in
  if which =? 0 then forLanes (fun i => [FCVT_S_W (R (d + i)) R_ZERO])
  else if which =? 1 then splat float_one
  else if which =? 2 then splat float_minus_one
  else if which =? 3 then oneHot 0
  else if which =? 4 then oneHot 1
  else if which =? 5 then oneHot 2
  else if which =? 6 then oneHot 3
  else [].

Definition CompIR_VecAssign (inst : IRInst) : list Effect :=
  let d := dest inst in
  match op inst with
  | Vec4Init =>
      fprCalls (forLanes (fun i => [SpillLock (d + i)])) ++
      fprCalls (forLanes (fun i => [MapReg (d + i) NOINIT])) ++
      fprCalls (forLanes (fun i => [ReleaseSpillLock (d + i)])) ++
      emit (vec4InitCode d (src1 inst))
  | Vec4Shuffle =>
      if d =? src1 inst then
        Fpr (Map4DirtyInTemp d (src1 inst)) ::
        emit (shuffleInPlaceCode d (src2 inst))
      else
        Fpr (Map4DirtyIn d (src1 inst)) ::
        emit (forLanes (fun i =>
          let lane := Z.land (Z.shiftr (src2 inst) (i * 2)) 3 in
          [FMV (R (d + i)) (R (src1 inst + lane))]))
  | Vec4Blend =>
      Fpr (Map4DirtyInIn d (src1 inst) (src2 inst)) ::
      emit (forLanes (fun i =>
        let which := Z.land (Z.shiftr (constant inst) i) 1 in
        [FMV (R (d + i))
             (R ((if negb (which =? 0) then src2 inst else src1 inst) + i))]))
  | Vec4Mov =>
      Fpr (Map4DirtyIn d (src1 inst)) ::
      emit (forLanes (fun i => [FMV (R (d + i)) (R (src1 inst + i))]))
  | _ => INVALIDOP inst
  end.

Definition CompIR_VecArith (inst : IRInst) : list Effect :=
  let d := dest inst in
  let lanewise (mk : FReg -> FReg -> FReg -> RiscVInst) :=
    Fpr (Map4DirtyInIn d (src1 inst) (src2 inst)) ::
    emit (forLanes (fun i =>
      [mk (R (d + i)) (R (src1 inst + i)) (R (src2 inst + i))])) in
  match op inst with
  | Vec4Add => lanewise FADD
  | Vec4Sub => lanewise FSUB
  | Vec4Mul => lanewise FMUL
  | Vec4Div => lanewise FDIV
  | Vec4Scale =>
      fprCalls [SpillLock (src2 inst); MapReg (src2 inst) INIT;
                Map4DirtyIn d (src1 inst); ReleaseSpillLock (src2 inst)] ++
      emit (forLanes (fun i =>
        [FMUL (R (d + i)) (R (src1 inst + i)) (R (src2 inst))]))
  | Vec4Neg =>
      Fpr (Map4DirtyIn d (src1 inst)) ::
      emit (forLanes (fun i => [FNEG (R (d + i)) (R (src1 inst + i))]))
  | Vec4Abs =>
      Fpr (Map4DirtyIn d (src1 inst)) ::
      emit (forLanes (fun i => [FABS (R (d + i)) (R (src1 inst + i))]))
  | _ => INVALIDOP inst
  end.

Definition dotOverlaps (inst : IRInst) : bool :=
  ((dest inst <? src1 inst + 4) && (dest inst >=? src1 inst)) ||
  ((dest inst <? src2 inst + 4) && (dest inst >=? src2 inst)).

Definition dotLaneAliased (inst : IRInst) (i : Z) : bool :=
  (dest inst =? src1 inst + i) || (dest inst =? src2 inst + i).

Definition CompIR_VecHoriz (inst : IRInst) : list Effect :=
  let d := dest inst in
  match op inst with
  | Vec4Dot =>
      fprCalls (SpillLock d ::
                forLanes (fun i => [SpillLock (src1 inst + i);
                                    SpillLock (src2 inst + i)])) ++
      fprCalls (forLanes (fun i => [MapReg (src1 inst + i) INIT;
                                    MapReg (src2 inst + i) INIT])) ++
      fprCalls [MapReg d NOINIT] ++
      fprCalls (forLanes (fun i => [ReleaseSpillLock (src1 inst + i);
                                    ReleaseSpillLock (src2 inst + i)])) ++
      fprCalls [ReleaseSpillLock d] ++
      emit (if dotOverlaps inst then
              forLanes (fun i =>
                if dotLaneAliased inst i
                then [FMUL (R d) (R (src1 inst + i)) (R (src2 inst + i))]
                else []) ++
              forLanes (fun i =>
                if dotLaneAliased inst i
                then []
                else [FMADD (R d) (R (src1 inst + i)) (R (src2 inst + i)) (R d)])
            else
              FMUL (R d) (R (src1 inst)) (R (src2 inst)) ::
              flat_map (fun i =>
                [FMADD (R d) (R (src1 inst + i)) (R (src2 inst + i)) (R d)])
                [1; 2; 3])
  | _ => INVALIDOP inst
  end.

(** The body of the loop of [Vec4Unpack8To32]. *)
Definition unpackLane (inst : IRInst) (i : Z) : list RiscVInst :=
  (* Mask using walls. *)
  (if negb (i =? 0)
   then [SRLI SCRATCH1 SCRATCH2 (i * 8); SLLI SCRATCH1 SCRATCH1 24]
   else [SLLI SCRATCH1 SCRATCH2 24]) ++
  [FMV_W_X (R (dest inst + i)) SCRATCH1].

(** The body of the loop of [Vec4Pack31To8]. *)
Definition packLane (inst : IRInst) (i : Z) : list RiscVInst :=
  [FMV_X_W SCRATCH1 (R (src1 inst + i));
   SRLI SCRATCH1 SCRATCH1 23] ++
  (if i =? 0
   then [ANDI SCRATCH2 SCRATCH1 0xFF]
   else [ANDI SCRATCH1 SCRATCH1 0xFF;
         SLLI SCRATCH1 SCRATCH1 (8 * i);
         OR SCRATCH2 SCRATCH2 SCRATCH1]).

Definition CompIR_VecPack (inst : IRInst) : list Effect :=
  let d := dest inst in
  match op inst with
  | Vec2Unpack16To31 | Vec2Unpack16To32 | Vec4Pack32To8 | Vec2Pack31To16 =>
      [Generic inst]
  | Vec4Unpack8To32 =>
      fprCalls (SpillLock (src1 inst) ::
                forLanes (fun i => [SpillLock (d + i)])) ++
      fprCalls (MapReg (src1 inst) INIT ::
                forLanes (fun i => [MapReg (d + i) NOINIT])) ++
      fprCalls [ReleaseSpillLocksAndDiscardTemps] ++
      emit (FMV_X_W SCRATCH2 (R (src1 inst)) :: forLanes (unpackLane inst))
  | Vec4DuplicateUpperBitsAndShift1 =>
      Fpr (Map4DirtyIn d (src1 inst)) ::
      emit (forLanes (fun i =>
        [FMV_X_W SCRATCH1 (R (src1 inst + i));
         SRLIW SCRATCH2 SCRATCH1 8;
         OR SCRATCH1 SCRATCH1 SCRATCH2;
         SRLIW SCRATCH2 SCRATCH1 16;
         OR SCRATCH1 SCRATCH1 SCRATCH2;
         SRLIW SCRATCH1 SCRATCH1 1;
         FMV_W_X (R (d + i)) SCRATCH1]))
  | Vec4Pack31To8 =>
      fprCalls (SpillLock d ::
                forLanes (fun i => [SpillLock (src1 inst + i);
                                    MapReg (src1 inst + i) INIT])) ++
      fprCalls [MapReg d NOINIT; ReleaseSpillLocksAndDiscardTemps] ++
      emit (forLanes (packLane inst) ++ [FMV_W_X (R d) SCRATCH2])
  | Vec2Pack32To16 =>
      Fpr (MapDirtyInIn d (src1 inst) (src1 inst + 1)) ::
      emit [FMV_X_W SCRATCH1 (R (src1 inst));
            FMV_X_W SCRATCH2 (R (src1 inst + 1));
            SLLI SCRATCH1 SCRATCH1 (XLEN - 32);
            SRLI SCRATCH1 SCRATCH1 (XLEN - 16);
            SRLI SCRATCH2 SCRATCH2 16;
            SLLI SCRATCH2 SCRATCH2 16;
            OR SCRATCH1 SCRATCH1 SCRATCH2;
            FMV_W_X (R d) SCRATCH1]
  | _ => INVALIDOP inst
  end.

(** The instructions of one iteration of the [Vec4ClampToZero] loop. *)
Definition clampLane (inst : IRInst) (i : Z) : list RiscVInst :=
  [FMV_X_W SCRATCH1 (R (src1 inst + i));
   SRAIW SCRATCH2 SCRATCH1 31] ++
  (if RiscV_Zbb
   then [ANDN SCRATCH1 SCRATCH1 SCRATCH2]
   else [NOT SCRATCH2 SCRATCH2; AND SCRATCH1 SCRATCH1 SCRATCH2]) ++
  [FMV_W_X (R (dest inst + i)) SCRATCH1].

Definition CompIR_VecClamp (inst : IRInst) : list Effect :=
  match op inst with
  | Vec4ClampToZero =>
      Fpr (Map4DirtyIn (dest inst) (src1 inst)) ::
      emit (forLanes (clampLane inst))
  | Vec2ClampToZero => [Generic inst]
  | _ => INVALIDOP inst
  end.

End WithRegCache.

(** ** RV64 semantics of the emitted instructions *)

Definition wrap64 (v : Z) : Z := v mod 2 ^ 64.
Definition wrap32 (v : Z) : Z := v mod 2 ^ 32.

(** The low 32 bits read as a two's complement number (sign extension). *)
Definition signed32 (v : Z) : Z := (v + 2 ^ 31) mod 2 ^ 32 - 2 ^ 31.

(** Single-precision arithmetic on bit patterns; the routines only name
    the operations, the emitter and the host define them. *)
Record FloatOps : Type := mkFloatOps {
  fadd : Z -> Z -> Z;
  fsub : Z -> Z -> Z;
  fmul : Z -> Z -> Z;
  fdiv : Z -> Z -> Z;
  fmadd : Z -> Z -> Z -> Z;      (* fmadd a b c is (a * b) + c, fused *)
  fcvt_s_w : Z -> Z
}.

(** Float registers hold 32-bit patterns, integer registers 64-bit
    values kept in [0, 2^64). *)
Record Machine : Type := mkMachine {
  fregs : FReg -> Z;
  xregs : XReg -> Z
}.

Definition XReg_eqb (a b : XReg) : bool :=
  match a, b with
  | R_ZERO, R_ZERO | SCRATCH1, SCRATCH1 | SCRATCH2, SCRATCH2 => true
  | _, _ => false
  end.

Definition getF (s : Machine) (r : FReg) : Z := fregs s r.

Definition getX (s : Machine) (r : XReg) : Z :=
  match r with
  | R_ZERO => 0
  | _ => xregs s r
  end.

Definition setF (s : Machine) (r : FReg) (v : Z) : Machine :=
  mkMachine (fun r' => if Nat.eqb r' r then v else fregs s r') (xregs s).

Definition setX (s : Machine) (r : XReg) (v : Z) : Machine :=
  match r with
  | R_ZERO => s
  | _ => mkMachine (fregs s)
           (fun r' => if XReg_eqb r' r then wrap64 v else xregs s r')
  end.

Definition step (fp : FloatOps) (s : Machine) (i : RiscVInst) : Machine :=
  match i with
  | FMV rd rs => setF s rd (getF s rs)
  | FMV_X_W rd rs => setX s rd (signed32 (getF s rs))
  | FMV_W_X rd rs => setF s rd (wrap32 (getX s rs))
  | FCVT_S_W rd rs => setF s rd (fcvt_s_w fp (signed32 (getX s rs)))
  | LI rd bits => setX s rd bits
  | FADD rd rs1 rs2 => setF s rd (fadd fp (getF s rs1) (getF s rs2))
  | FSUB rd rs1 rs2 => setF s rd (fsub fp (getF s rs1) (getF s rs2))
  | FMUL rd rs1 rs2 => setF s rd (fmul fp (getF s rs1) (getF s rs2))
  | FDIV rd rs1 rs2 => setF s rd (fdiv fp (getF s rs1) (getF s rs2))
  | FNEG rd rs => setF s rd (Z.lxor (getF s rs) 0x80000000)
  | FABS rd rs => setF s rd (Z.land (getF s rs) 0x7FFFFFFF)
  | FMADD rd rs1 rs2 rs3 =>
      setF s rd (fmadd fp (getF s rs1) (getF s rs2) (getF s rs3))
  | SRLI rd rs sh => setX s rd (Z.shiftr (getX s rs) sh)
  | SLLI rd rs sh => setX s rd (Z.shiftl (getX s rs) sh)
  | SRLIW rd rs sh => setX s rd (signed32 (Z.shiftr (wrap32 (getX s rs)) sh))
  | SRAIW rd rs sh => setX s rd (Z.shiftr (signed32 (getX s rs)) sh)
  | ANDI rd rs imm => setX s rd (Z.land (getX s rs) imm)
  | OR rd rs1 rs2 => setX s rd (Z.lor (getX s rs1) (getX s rs2))
  | AND rd rs1 rs2 => setX s rd (Z.land (getX s rs1) (getX s rs2))
  | ANDN rd rs1 rs2 => setX s rd (Z.land (getX s rs1) (Z.lnot (getX s rs2)))
  | NOT rd rs => setX s rd (Z.lnot (getX s rs))
  end.

Definition exec (fp : FloatOps) (prog : list RiscVInst) (s : Machine) : Machine :=
  fold_left (step fp) prog s.

(** Exact integer arithmetic as an instance of the float interface: the
    idealisation in which a fused multiply-add equals a multiply followed
    by an add, and addition is associative and commutative. *)
Definition exactOps : FloatOps :=
  mkFloatOps Z.add Z.sub Z.mul Z.div (fun a b c => a * b + c) (fun v => v).

(** A register file for examples: float register [n] holds [vals n]. *)
Definition machineOf (vals : list Z) : Machine :=
  mkMachine (fun r => nth r vals 0) (fun _ => 0).

(** The identity register assignment: guest register n lives in Fn. *)
Definition Rid (r : Z) : FReg := Z.to_nat r.

(** ** Register groups and the register-cache invariant *)

(** The four guest registers of the vector register starting at [b]. *)
Definition group (b : Z) : list Z := map (fun i => b + i) lanes4.

(** Two groups that share no register. *)
Definition disjointGroups (a b : Z) : Prop := a + 4 <= b \/ b + 4 <= a.

(** "At most one guest register maps to a given host register": [R] is
    one-to-one on the guest registers an instruction names. *)
Definition injOnRegs (R : Z -> FReg) (regs : list Z) : Prop :=
  forall a b, In a regs -> In b regs -> R a = R b -> a = b.

(** ** Move-only programs *)

Definition moves (mv : list (FReg * FReg)) : list RiscVInst :=
  map (fun p => FMV (fst p) (snd p)) mv.

(** The (destination, source) pairs of the FMVs of a program. *)
Fixpoint movesOf (prog : list RiscVInst) : list (FReg * FReg) :=
  match prog with
  | [] => []
  | FMV rd rs :: t => (rd, rs) :: movesOf t
  | _ :: t => movesOf t
  end.

(** The register whose initial content ends up in [r]. *)
Fixpoint origin (mv : list (FReg * FReg)) (r : FReg) : FReg :=
  match mv with
  | [] => r
  | (a, b) :: t => let q := origin t r in if Nat.eqb q a then b else q
  end.

Definition renameMoves (h : nat -> FReg) (mv : list (nat * nat))
  : list (FReg * FReg) :=
  map (fun p => (h (fst p), h (snd p))) mv.

Definition movesBelow (n : nat) (mv : list (nat * nat)) : bool :=
  forallb (fun p => Nat.ltb (fst p) n && Nat.ltb (snd p) n) mv.

(** All 8-bit immediates. *)
Definition imm8 : list Z := map Z.of_nat (seq 0 256).

(** The in-place plan on lane numbers: lanes 0..3 are registers 0..3 and
    the temporary is register 4. *)
Definition lanePlan (imm : Z) : list (nat * nat) :=
  movesOf (shuffleInPlaceCode Rid 4%nat 0 imm).

(** Where lanes and the temporary live on the host. *)
Definition laneHost (R : Z -> FReg) (tempReg : FReg) (d : Z) (n : nat) : FReg :=
  if Nat.eqb n 4 then tempReg else R (d + Z.of_nat n).

(** Counting the three kinds of FMV of the in-place shuffle. *)
Definition intoTemp (tempReg : FReg) (prog : list RiscVInst) : nat :=
  length (filter (fun p => Nat.eqb (fst p) tempReg) (movesOf prog)).
Definition outOfTemp (tempReg : FReg) (prog : list RiscVInst) : nat :=
  length (filter (fun p => Nat.eqb (snd p) tempReg) (movesOf prog)).
Definition laneToLane (tempReg : FReg) (prog : list RiscVInst) : nat :=
  length (filter (fun p => negb (Nat.eqb (fst p) tempReg) &&
                           negb (Nat.eqb (snd p) tempReg)) (movesOf prog)).

(** ** Statements of the claims about lane contents *)

Section Claims.

Variable R : Z -> FReg.
Variable tempReg : FReg.
Variable fp : FloatOps.



End Claims.

(** [hazardFree written mv]: no move of [mv] reads or writes a register in
    [written] or the destination of an earlier move of [mv]. *)
Fixpoint hazardFree (written : list FReg) (mv : list (FReg * FReg)) : Prop :=
  match mv with
  | [] => True
  | (a, b) :: t =>
      ~ In b written /\ ~ In a written /\ hazardFree (a :: written) t
  end.

(** The plan, checked on every immediate: it only names lanes and the
    temporary, lane i ends with the content of lane [goal i], and it has
    at most 4 lane-to-lane moves, at most 2 moves into the temporary, as
    many out of it, and 6 moves in all. *)
Definition planChecks (imm : Z) : bool :=
  let plan := lanePlan imm in
  movesBelow 5 plan &&
  forallb (fun i => Z.of_nat (origin plan (Z.to_nat i)) =? arrGet (shuffleGoal imm) i)
          lanes4 &&
  (let l := length (filter (fun p => negb (Nat.eqb (fst p) 4) && negb (Nat.eqb (snd p) 4)) plan) in
   let i := length (filter (fun p => Nat.eqb (fst p) 4) plan) in
   let o := length (filter (fun p => Nat.eqb (snd p) 4) plan) in
   Nat.leb l 4 && Nat.leb i 2 && Nat.eqb o i && Nat.eqb (length plan) (l + i + o)
   && Nat.leb (length plan) 6).

(** The bound of the move count: at most [l] lane-to-lane FMVs and at most
    [rt] round trips through the temporary. *)
Definition shuffleMoveBound (l rt : nat) (R : Z -> FReg) (tempReg : FReg)
    (inst : IRInst) : Prop :=
  let c := code (CompIR_VecAssign R tempReg inst) in
  (laneToLane tempReg c <= l)%nat /\
  (intoTemp tempReg c <= rt)%nat /\ (outOfTemp tempReg c <= rt)%nat.

(** ** Statements about Vec4Dot *)

Section DotClaims.

Variable R : Z -> FReg.
Variable fp : FloatOps.

(** The product of lane [i] of the two sources, on their original values. *)
Definition laneProduct (inst : IRInst) (s : Machine) (i : Z) : Z :=
  fmul fp (getF s (R (src1 inst + i))) (getF s (R (src2 inst + i))).

(** The reference of the specification: the four lane products summed
    left to right. *)
Definition dotReference (inst : IRInst) (s : Machine) : Z :=
  fadd fp (fadd fp (fadd fp (laneProduct inst s 0) (laneProduct inst s 1))
                   (laneProduct inst s 2))
          (laneProduct inst s 3).

Definition dotMul (inst : IRInst) (i : Z) : RiscVInst :=
  FMUL (R (dest inst)) (R (src1 inst + i)) (R (src2 inst + i)).

Definition dotMadd (inst : IRInst) (i : Z) : RiscVInst :=
  FMADD (R (dest inst)) (R (src1 inst + i)) (R (src2 inst + i)) (R (dest inst)).

(** The destination register number is one of the 8 source lane
    registers. *)
Definition dotAliased (inst : IRInst) : Prop :=
  exists i, 0 <= i < 4 /\ (dest inst = src1 inst + i \/ dest inst = src2 inst + i).

(** The claim: aliased, the product of the aliasing lane comes first and
    the other three lanes are accumulated; unaliased, lane 0 is multiplied
    and lanes 1, 2, 3 are accumulated; either way the destination ends
    with the reference sum. *)
Definition dotClaim (inst : IRInst) (s : Machine) : Prop :=
  let c := code (CompIR_VecHoriz R inst) in
  (dotAliased inst ->
     exists k, 0 <= k < 4 /\
       (dest inst = src1 inst + k \/ dest inst = src2 inst + k) /\
       c = dotMul inst k ::
           map (dotMadd inst) (filter (fun j => negb (j =? k)) lanes4)) /\
  (~ dotAliased inst ->
     c = FMUL (R (dest inst)) (R (src1 inst)) (R (src2 inst)) ::
         map (dotMadd inst) [1; 2; 3]) /\
  getF (exec fp c s) (R (dest inst)) = dotReference inst s.

End DotClaims.

(** ** Clamp to zero on a lane pattern *)

(** Zero when the sign bit (bit 31) is set, the pattern itself otherwise. *)
Definition clampToZero (x : Z) : Z := if Z.testbit x 31 then 0 else x.

(** ** Bytes of packed words *)

(** Byte [i] of a word: bits 8i+7 down to 8i. *)
Definition byteOf (x i : Z) : Z := Z.land (Z.shiftr x (8 * i)) 255.

(** The byte [Vec4Pack31To8] takes from a lane: bits 30..23. *)
Definition packByte (l : Z) : Z := Z.land (Z.shiftr l 23) 255.

(** Unpack with one instruction, then pack its destination group with
    another: the word left in the destination of the pack. *)
Definition unpackThenPack (R : Z -> FReg) (fp : FloatOps)
    (unpack pack : IRInst) (s : Machine) : Z :=
  getF (exec fp (code (CompIR_VecPack R pack))
          (exec fp (code (CompIR_VecPack R unpack)) s))
       (R (dest pack)).

(** ** The five routines together *)

Inductive Routine : Type := VecAssign | VecArith | VecHoriz | VecPack | VecClamp.

Definition CompIR (R : Z -> FReg) (tempReg : FReg) (RiscV_Zbb : bool)
    (r : Routine) (inst : IRInst) : list Effect :=
  match r with
  | VecAssign => CompIR_VecAssign R tempReg inst
  | VecArith => CompIR_VecArith R inst
  | VecHoriz => CompIR_VecHoriz R inst
  | VecPack => CompIR_VecPack R inst
  | VecClamp => CompIR_VecClamp R RiscV_Zbb inst
  end.



Definition isMapCall (c : RegCacheCall) : bool :=
  match c with
  | MapReg _ _ | MapDirtyInIn _ _ _ | Map4DirtyIn _ _
  | Map4DirtyInIn _ _ _ | Map4DirtyInTemp _ _ => true
  | _ => false
  end.

(** No [SpillLock] comes after a mapping call. *)
Fixpoint locksFirst (mapped : bool) (cs : list RegCacheCall) : bool :=
  match cs with
  | [] => true
  | SpillLock _ :: t => negb mapped && locksFirst mapped t
  | c :: t => locksFirst (mapped || isMapCall c) t
  end.

(** Every register handed to [MapReg] is, at that call, under a spill lock
    the routine took earlier and has not released.  [held] are the
    registers locked so far. *)
Fixpoint mapsLocked (held : list Z) (cs : list RegCacheCall) : Prop :=
  match cs with
  | [] => True
  | SpillLock r :: t => mapsLocked (r :: held) t
  | ReleaseSpillLock r :: t => mapsLocked (remove Z.eq_dec r held) t
  | ReleaseSpillLocksAndDiscardTemps :: t => mapsLocked [] t
  | MapReg r _ :: t => In r held /\ mapsLocked held t
  | _ :: t => mapsLocked held t
  end.

Definition isNativeEffect (e : Effect) : bool :=
  match e with
  | Fpr _ | Emit _ => true
  | _ => false
  end.

(** The routine compiled the instruction itself: register-cache calls and
    emitted instructions only. *)
Definition nativeOnly (t : list Effect) : Prop := forallb isNativeEffect t = true.

(** The routine handed the instruction to the generic compiler, possibly
    after reporting the invalid opcode. *)
Definition delegated (inst : IRInst) (t : list Effect) : Prop :=
  t = [Generic inst] \/ t = [AssertFailed (op inst); Generic inst].

(** ** Statements about the remaining cases *)

(** The float register an instruction writes, if it writes one. *)
Definition fdest (i : RiscVInst) : option FReg :=
  match i with
  | FMV rd _ | FMV_W_X rd _ | FCVT_S_W rd _
  | FADD rd _ _ | FSUB rd _ _ | FMUL rd _ _ | FDIV rd _ _
  | FNEG rd _ | FABS rd _ | FMADD rd _ _ _ => Some rd
  | _ => None
  end.

(** How many FMVs of a program write register [r]. *)
Definition laneWrites (r : FReg) (prog : list RiscVInst) : nat :=
  length (filter (fun p => Nat.eqb (fst p) r) (movesOf prog)).

(** The lane patterns the cases of the [Vec4Init] switch leave: value
    [which] of the initializer, lane [i]. *)
Definition vec4InitLane (which i : Z) : Z :=
  if which =? 0 then 0
  else if which =? 1 then float_one
  else if which =? 2 then float_minus_one
  else if i =? which - 3 then float_one else 0.

(** The operation of a lane-wise arithmetic case. *)
Definition arithOp (fp : FloatOps) (o : IROp) : option (Z -> Z -> Z) :=
  match o with
  | Vec4Add => Some (fadd fp)
  | Vec4Sub => Some (fsub fp)
  | Vec4Mul => Some (fmul fp)
  | Vec4Div => Some (fdiv fp)
  | _ => None
  end.

(** Multiply the lanes of [k], then multiply-accumulate the lanes of
    [rest] in that order, each a single fused operation. *)
Definition dotFused (R : Z -> FReg) (fp : FloatOps) (inst : IRInst)
    (s : Machine) (k : Z) (rest : list Z) : Z :=
  fold_left
    (fun acc j => fmadd fp (getF s (R (src1 inst + j)))
                           (getF s (R (src2 inst + j))) acc)
    rest
    (fmul fp (getF s (R (src1 inst + k))) (getF s (R (src2 inst + k)))).

(** What [Vec4DuplicateUpperBitsAndShift1] computes on a 32-bit lane. *)
Definition duplicateUpperBitsAndShift1 (x : Z) : Z :=
  let y := Z.lor x (Z.shiftr x 8) in
  Z.shiftr (Z.lor y (Z.shiftr y 16)) 1.

(** Unpack, duplicate the upper bits, pack: the word left in the
    destination of the pack. *)
Definition unpackDupPack (R : Z -> FReg) (fp : FloatOps)
    (unpack dup pack : IRInst) (s : Machine) : Z :=
  getF (exec fp (code (CompIR_VecPack R pack))
          (exec fp (code (CompIR_VecPack R dup))
             (exec fp (code (CompIR_VecPack R unpack)) s)))
       (R (dest pack)).

(** The body of the loop of [Vec4DuplicateUpperBitsAndShift1]. *)
Definition dupLane (R : Z -> FReg) (inst : IRInst) (i : Z) : list RiscVInst :=
  [FMV_X_W SCRATCH1 (R (src1 inst + i));
   SRLIW SCRATCH2 SCRATCH1 8;
   OR SCRATCH1 SCRATCH1 SCRATCH2;
   SRLIW SCRATCH2 SCRATCH1 16;
   OR SCRATCH1 SCRATCH1 SCRATCH2;
   SRLIW SCRATCH1 SCRATCH1 1;
   FMV_W_X (R (dest inst + i)) SCRATCH1].

(** A later call releases the spill lock of [r]. *)
Fixpoint releasedIn (r : Z) (cs : list RegCacheCall) : Prop :=
  match cs with
  | [] => False
  | ReleaseSpillLock r' :: t => r' = r \/ releasedIn r t
  | ReleaseSpillLocksAndDiscardTemps :: _ => True
  | _ :: t => releasedIn r t
  end.

(** Every [SpillLock] is released by a later call of the same routine. *)
Fixpoint locksReleased (cs : list RegCacheCall) : Prop :=
  match cs with
  | [] => True
  | SpillLock r :: t => releasedIn r t /\ locksReleased t
  | _ :: t => locksReleased t
  end.

(** The lane checks of the in-place plan: a lane is written by exactly one
    FMV when its selection is another lane and by none when it selects
    itself; and the [state] array ends equal to [goal]. *)
Definition planWritesOnce (imm : Z) : bool :=
  forallb (fun i =>
             Nat.eqb (length (filter (fun p => Nat.eqb (fst p) (Z.to_nat i))
                                     (lanePlan imm)))
                     (if arrGet (shuffleGoal imm) i =? i then 0%nat else 1%nat))
          lanes4.

(** ** IEEE 754 binary32 arithmetic on bit patterns *)

(** The arithmetic FADD.S, FSUB.S, FMUL.S, FDIV.S, FMADD.S and FCVT.S.W of
    the host perform on 32-bit patterns: round to nearest, ties to even,
    gradual underflow, overflow to infinity, and the canonical NaN
    0x7FC00000 for every NaN result.  A pattern is decoded to the number
    it denotes, the operation is carried out exactly, and the exact
    result is rounded once. *)
Inductive Exact32 : Type :=
  | ENaN
  | EInf (neg : bool)
  | EZero (neg : bool)
  | EVal (m e : Z).                     (* m * 2^e with m <> 0 *)

Definition decode32 (x : Z) : Exact32 :=
  let neg := Z.testbit x 31 in
  let E := Z.land (Z.shiftr x 23) 255 in
  let F := Z.land x (2 ^ 23 - 1) in
  if E =? 255 then (if F =? 0 then EInf neg else ENaN)
  else if E =? 0 then
    (if F =? 0 then EZero neg else EVal (if neg then - F else F) (-149))
  else EVal (if neg then - (2 ^ 23 + F) else 2 ^ 23 + F) (E - 150).

Definition signBit (neg : bool) : Z := if neg then 0x80000000 else 0.
Definition canonicalNaN : Z := 0x7FC00000.
Definition infinity32 : Z := 0x7F800000.

(** The pattern nearest to m * 2^e (m <> 0), ties to even: [q] is the
    exponent of the last place kept, [n] the rounded significand. *)
Definition round32 (m e : Z) : Z :=
  let a := Z.abs m in
  let q := Z.max (e + Z.log2 a - 23) (-149) in
  let d := q - e in
  let n :=
    if d <=? 0 then a * 2 ^ (- d)
    else
      let n0 := a / 2 ^ d in
      let r := a mod 2 ^ d in
      let half := 2 ^ (d - 1) in
      if (half <? r) || ((r =? half) && Z.odd n0) then n0 + 1 else n0 in
  let E := if n =? 2 ^ 24 then q + 151 else q + 150 in
  let n := if n =? 2 ^ 24 then 2 ^ 23 else n in
  signBit (m <? 0) +
  (if n <? 2 ^ 23 then n                (* zero or subnormal *)
   else if 255 <=? E then infinity32
   else E * 2 ^ 23 + (n - 2 ^ 23)).

Definition encode32 (v : Exact32) : Z :=
  match v with
  | ENaN => canonicalNaN
  | EInf neg => signBit neg + infinity32
  | EZero neg => signBit neg
  | EVal m e => round32 m e
  end.

Definition exactMul (x y : Exact32) : Exact32 :=
  match x, y with
  | ENaN, _ | _, ENaN => ENaN
  | EInf _, EZero _ | EZero _, EInf _ => ENaN
  | EInf s, EInf t => EInf (xorb s t)
  | EInf s, EVal m _ | EVal m _, EInf s => EInf (xorb s (m <? 0))
  | EZero s, EZero t => EZero (xorb s t)
  | EZero s, EVal m _ | EVal m _, EZero s => EZero (xorb s (m <? 0))
  | EVal m1 e1, EVal m2 e2 => EVal (m1 * m2) (e1 + e2)
  end.

Definition exactAdd (x y : Exact32) : Exact32 :=
  match x, y with
  | ENaN, _ | _, ENaN => ENaN
  | EInf s, EInf t => if Bool.eqb s t then EInf s else ENaN
  | EInf s, _ | _, EInf s => EInf s
  | EZero s, EZero t => EZero (s && t)
  | EZero _, v | v, EZero _ => v
  | EVal m1 e1, EVal m2 e2 =>
      let e := Z.min e1 e2 in
      let m := m1 * 2 ^ (e1 - e) + m2 * 2 ^ (e2 - e) in
      if m =? 0 then EZero false else EVal m e
  end.

(** The quotient to 64 more bits than the dividend has, with one more bit
    that records a remainder: enough for the single rounding to be that
    of the exact quotient. *)
Definition exactDiv (x y : Exact32) : Exact32 :=
  match x, y with
  | ENaN, _ | _, ENaN => ENaN
  | EInf _, EInf _ | EZero _, EZero _ => ENaN
  | EInf s, EZero t => EInf (xorb s t)
  | EInf s, EVal m _ => EInf (xorb s (m <? 0))
  | EZero s, EInf t => EZero (xorb s t)
  | EZero s, EVal m _ => EZero (xorb s (m <? 0))
  | EVal m _, EInf t => EZero (xorb (m <? 0) t)
  | EVal m _, EZero t => EInf (xorb (m <? 0) t)
  | EVal m1 e1, EVal m2 e2 =>
      let a := Z.abs m1 * 2 ^ 64 in
      let b := Z.abs m2 in
      let n := 2 * (a / b) + (if a mod b =? 0 then 0 else 1) in
      EVal (if xorb (m1 <? 0) (m2 <? 0) then - n else n) (e1 - e2 - 65)
  end.

Definition binary32Ops : FloatOps :=
  mkFloatOps
    (fun x y => encode32 (exactAdd (decode32 x) (decode32 y)))
    (fun x y => encode32 (exactAdd (decode32 x) (decode32 (Z.lxor y 0x80000000))))
    (fun x y => encode32 (exactMul (decode32 x) (decode32 y)))
    (fun x y => encode32 (exactDiv (decode32 x) (decode32 y)))
    (fun x y z => encode32 (exactAdd (exactMul (decode32 x) (decode32 y)) (decode32 z)))
    (fun v => if v =? 0 then 0 else round32 v 0).

(** ** Statements about Vec4Dot in floating point *)

(** The destination is a source lane register for at most one lane
    number: it may be lane k of the first source, of the second, or of
    both, but not lane j of one and lane k <> j of the other. *)
Definition dotSingleAlias (inst : IRInst) : Prop :=
  forall j k, 0 <= j < 4 -> 0 <= k < 4 ->
    (dest inst = src1 inst + j \/ dest inst = src2 inst + j) ->
    (dest inst = src1 inst + k \/ dest inst = src2 inst + k) ->
    j = k.

(** The order of the emitted code and the value it leaves: when the
    destination is lane [k] of a source, the multiply of lane [k] and the
    multiply-accumulates of the other lanes in lane order; when it is no
    source lane, the multiply of lane 0 and the multiply-accumulates of
    lanes 1, 2, 3; the destination ends with that multiply and those
    fused multiply-adds applied, in that order, to the original lanes. *)
Definition dotFusedClaim (R : Z -> FReg) (fp : FloatOps) (inst : IRInst)
    (s : Machine) : Prop :=
  let c := code (CompIR_VecHoriz R inst) in
  let y := getF (exec fp c s) (R (dest inst)) in
  (forall k, 0 <= k < 4 ->
     dest inst = src1 inst + k \/ dest inst = src2 inst + k ->
     c = dotMul R inst k ::
         map (dotMadd R inst) (filter (fun j => negb (j =? k)) lanes4) /\
     y = dotFused R fp inst s k (filter (fun j => negb (j =? k)) lanes4)) /\
  (~ dotAliased inst ->
     c = FMUL (R (dest inst)) (R (src1 inst)) (R (src2 inst)) ::
         map (dotMadd R inst) [1; 2; 3] /\
     y = dotFused R fp inst s 0 [1; 2; 3]).

(** ** Statement about Vec4ClampToZero on a whole instruction *)


(** ** Statements about what a routine leaves for an instruction *)




(** * Proofs *)

(** ** Basic facts on the machine *)

Lemma getF_setF_eq s r v : getF (setF s r v) r = v.
Proof. unfold getF, setF; simpl. now rewrite Nat.eqb_refl. Qed.

Lemma getF_setF_neq s r r' v : r' <> r -> getF (setF s r v) r' = getF s r'.
Proof.
  intros H. unfold getF, setF; simpl.
  destruct (Nat.eqb_spec r' r); [contradiction | reflexivity].
Qed.

Lemma getF_setX s r v r' : getF (setX s r v) r' = getF s r'.
Proof. destruct r; reflexivity. Qed.

Lemma getX_setF s r v r' : getX (setF s r v) r' = getX s r'.
Proof. destruct r'; reflexivity. Qed.

Lemma getX_setX_eq s r v : r <> R_ZERO -> getX (setX s r v) r = wrap64 v.
Proof. destruct r; intros H; try contradiction; reflexivity. Qed.

Lemma getX_setX_neq s r r' v : r' <> r -> getX (setX s r v) r' = getX s r'.
Proof. destruct r, r'; intros H; try contradiction; try reflexivity; congruence. Qed.

Lemma exec_app fp p q s : exec fp (p ++ q) s = exec fp q (exec fp p s).
Proof. unfold exec. apply fold_left_app. Qed.

Lemma exec_cons fp i p s : exec fp (i :: p) s = exec fp p (step fp s i).
Proof. reflexivity. Qed.

Lemma code_emit l : code (emit l) = l.
Proof. induction l as [|i l IH]; simpl; [reflexivity | now rewrite IH]. Qed.

Lemma code_fprCalls l : code (fprCalls l) = [].
Proof. induction l as [|c l IH]; simpl; [reflexivity | exact IH]. Qed.

Lemma code_app t u : code (t ++ u) = code t ++ code u.
Proof.
  induction t as [|e t IH]; simpl; [reflexivity|].
  destruct e; simpl; now rewrite IH.
Qed.

Lemma In_group b i : 0 <= i < 4 -> In (b + i) (group b).
Proof.
  intros H. assert (i = 0 \/ i = 1 \/ i = 2 \/ i = 3) as C by lia.
  unfold group; simpl. intuition (subst; auto).
Qed.

Lemma imm8_complete imm : 0 <= imm < 256 -> In imm imm8.
Proof.
  intros H. unfold imm8. apply in_map_iff. exists (Z.to_nat imm). split.
  - lia.
  - apply in_seq. lia.
Qed.



Lemma forall_imm8 (P : Z -> Prop) :
  Forall P imm8 -> forall imm, 0 <= imm < 256 -> P imm.
Proof.
  intros H imm Himm. rewrite Forall_forall in H. now apply H, imm8_complete.
Qed.

Lemma movesOf_moves mv : movesOf (moves mv) = mv.
Proof.
  induction mv as [|[a b] t IH]; simpl; [reflexivity | now rewrite IH].
Qed.

Lemma length_moves mv : length (moves mv) = length mv.
Proof. apply length_map. Qed.

Lemma length_renameMoves h mv : length (renameMoves h mv) = length mv.
Proof. apply length_map. Qed.


Lemma shuffleGoal_get imm i :
  0 <= i < 4 -> arrGet (shuffleGoal imm) i = Z.land (Z.shiftr imm (2 * i)) 3.
Proof.
  intros H. assert (i = 0 \/ i = 1 \/ i = 2 \/ i = 3) as C by lia.
  destruct C as [-> | [-> | [-> | ->]]]; reflexivity.
Qed.

(** ** The in-place shuffle: the emitted FMVs are the lane plan, renamed *)

Section InPlace.

Variable R : Z -> FReg.
Variable tempReg : FReg.
Variable d : Z.

Lemma shuffleInPlace_plan imm :
  0 <= imm < 256 ->
  shuffleInPlaceCode R tempReg d imm
  = moves (renameMoves (laneHost R tempReg d) (lanePlan imm)).
Proof.
  revert imm. apply forall_imm8. unfold imm8.
  cbn [seq map Z.of_nat Pos.of_succ_nat Pos.succ].
  repeat (apply Forall_cons; [vm_compute; reflexivity|]).
  apply Forall_nil.
Qed.

(** The assertion of the loop never fails: the lane looked for is always
    found in [state]. *)
Lemma shuffleInPlace_asserts imm :
  0 <= imm < 256 -> snd (shuffleInPlace R tempReg d imm) = true.
Proof.
  revert imm. apply forall_imm8. unfold imm8.
  cbn [seq map Z.of_nat Pos.of_succ_nat Pos.succ].
  repeat (apply Forall_cons; [vm_compute; reflexivity|]).
  apply Forall_nil.
Qed.

Hypothesis temp_fresh : forall i, 0 <= i < 4 -> tempReg <> R (d + i).

Lemma laneHost_lane i : 0 <= i < 4 -> laneHost R tempReg d (Z.to_nat i) = R (d + i).
Proof.
  intros H. unfold laneHost.
  destruct (Nat.eqb_spec (Z.to_nat i) 4) as [E|E]; [lia|].
  now rewrite Z2Nat.id by lia.
Qed.

Lemma laneHost_temp a : (a < 5)%nat -> Nat.eqb (laneHost R tempReg d a) tempReg = Nat.eqb a 4.
Proof.
  intros H. unfold laneHost.
  destruct (Nat.eqb_spec a 4) as [E|E].
  - apply Nat.eqb_refl.
  - apply Nat.eqb_neq. intros E'. apply (temp_fresh (Z.of_nat a)); [lia|].
    now symmetry.
Qed.

Lemma count_rename (P : FReg * FReg -> bool) (Q : nat * nat -> bool) :
  (forall a b, (a < 5)%nat -> (b < 5)%nat -> P (laneHost R tempReg d a, laneHost R tempReg d b) = Q (a, b)) ->
  forall mv, movesBelow 5 mv = true ->
    length (filter P (renameMoves (laneHost R tempReg d) mv)) = length (filter Q mv).
Proof.
  intros HPQ mv. induction mv as [|[a b] t IH]; intros Hb; [reflexivity|].
  simpl in Hb. apply andb_true_iff in Hb as [Hab Ht].
  apply andb_true_iff in Hab as [Ha Hb']. apply Nat.ltb_lt in Ha, Hb'.
  cbn [renameMoves map filter fst snd]. rewrite (HPQ a b Ha Hb').
  fold (renameMoves (laneHost R tempReg d) t).
  destruct (Q (a, b)); cbn [length]; now rewrite (IH Ht).
Qed.

Hypothesis lanes_distinct : injOnRegs R (group d).

Lemma laneHost_inj a b : (a < 5)%nat -> (b < 5)%nat -> laneHost R tempReg d a = laneHost R tempReg d b -> a = b.
Proof.
  intros Ha Hb E.
  pose proof (laneHost_temp a Ha) as Ta. pose proof (laneHost_temp b Hb) as Tb.
  destruct (Nat.eqb_spec a 4) as [Ea|Ea]; destruct (Nat.eqb_spec b 4) as [Eb|Eb].
  - congruence.
  - rewrite <- E, Ta in Tb. discriminate.
  - rewrite E, Tb in Ta. discriminate.
  - unfold laneHost in E.
    destruct (Nat.eqb_spec a 4); [contradiction|].
    destruct (Nat.eqb_spec b 4); [contradiction|].
    apply lanes_distinct in E; [lia | apply In_group; lia | apply In_group; lia].
Qed.

End InPlace.

Lemma planChecks_all imm : 0 <= imm < 256 -> planChecks imm = true.
Proof.
  assert (forallb planChecks imm8 = true) as H by (vm_compute; reflexivity).
  rewrite forallb_forall in H. intros Himm. now apply H, imm8_complete.
Qed.

Lemma hazardFree_In w mv : hazardFree w mv ->
  forall a b, In (a, b) mv -> ~ In a w /\ ~ In b w.
Proof.
  revert w. induction mv as [|[a0 b0] t IH]; intros w H a b Hin; [destruct Hin|].
  destruct H as (Hb & Ha & Ht). destruct Hin as [E|Hin].
  - inversion E; subst. now split.
  - destruct (IH _ Ht a b Hin) as [Na Nb]. split; intros C.
    + apply Na. now right.
    + apply Nb. now right.
Qed.

Lemma exec_moves_untouched fp mv : forall s r,
  (forall a b, In (a, b) mv -> a <> r) ->
  getF (exec fp (moves mv) s) r = getF s r.
Proof.
  induction mv as [|[a b] t IH]; intros s r H; [reflexivity|].
  change (moves ((a, b) :: t)) with (FMV a b :: moves t).
  rewrite exec_cons, IH.
  - cbn [step]. apply getF_setF_neq. intros E. apply (H a b); [now left | now symmetry].
  - intros a' b' Hin. apply (H a' b'). now right.
Qed.

Lemma exec_hazardFree fp mv : forall w s,
  hazardFree w mv ->
  forall a b, In (a, b) mv -> getF (exec fp (moves mv) s) a = getF s b.
Proof.
  induction mv as [|[a0 b0] t IH]; intros w s H a b Hin; [destruct Hin|].
  destruct H as (Hb & Ha & Ht).
  change (moves ((a0, b0) :: t)) with (FMV a0 b0 :: moves t).
  rewrite exec_cons. cbn [step]. destruct Hin as [E|Hin].
  - inversion E; subst a0 b0.
    rewrite exec_moves_untouched; [apply getF_setF_eq|].
    intros a' b' Hin' E'. subst a'.
    destruct (hazardFree_In _ _ Ht _ _ Hin') as [Na _]. apply Na. now left.
  - rewrite (IH _ _ Ht _ _ Hin).
    apply getF_setF_neq. intros E.
    destruct (hazardFree_In _ _ Ht _ _ Hin) as [_ Nb]. apply Nb. now left.
Qed.

(** The shape of the code of [Vec4Shuffle] and [Vec4Blend]. *)
Lemma Vec4Shuffle_inplace_code R tempReg inst :
  op inst = Vec4Shuffle -> dest inst = src1 inst ->
  code (CompIR_VecAssign R tempReg inst)
  = shuffleInPlaceCode R tempReg (dest inst) (src2 inst).
Proof.
  intros Hop Hd. unfold CompIR_VecAssign. rewrite Hop, <- Hd, Z.eqb_refl.
  cbn [code]. apply code_emit.
Qed.


Lemma Vec4Blend_code R tempReg inst :
  op inst = Vec4Blend ->
  code (CompIR_VecAssign R tempReg inst)
  = moves (map (fun i => (R (dest inst + i),
                          R ((if negb (Z.land (Z.shiftr (constant inst) i) 1 =? 0)
                              then src2 inst else src1 inst) + i)))
               lanes4).
Proof.
  intros Hop. unfold CompIR_VecAssign. rewrite Hop.
  cbn [code]. rewrite code_emit. reflexivity.
Qed.

Lemma land1_testbit x i : 0 <= i ->
  negb (Z.land (Z.shiftr x i) 1 =? 0) = Z.testbit x i.
Proof.
  intros Hi. change 1 with (Z.ones 1). rewrite Z.land_ones by lia.
  rewrite Z.shiftr_div_pow2 by assumption. change (2 ^ 1) with 2.
  destruct (Z.testbit x i) eqn:T.
  - apply Z.testbit_true in T; [|assumption]. now rewrite T.
  - apply Z.testbit_false in T; [|assumption]. now rewrite T.
Qed.

(** Deciding an equation between host registers from the register-cache
    invariant. *)
Ltac in_regs := unfold group, lanes4; cbn [In app map]; lia.

Ltac regs_clash Hinj :=
  match goal with
  | E : ?R ?x = ?R ?y |- _ => apply Hinj in E; [lia | in_regs | in_regs]
  end.

Ltac no_hazard Hinj :=
  cbn [lanes4 map hazardFree In]; repeat split; intros C;
  repeat (destruct C as [C|C]); try contradiction; regs_clash Hinj.

Lemma Rid_injOn regs : Forall (fun r => 0 <= r) regs -> injOnRegs Rid regs.
Proof.
  intros H a b Ha Hb E. rewrite Forall_forall in H.
  apply Z2Nat.inj; [now apply H | now apply H | exact E].
Qed.

(** * Vec4Shuffle *)




(** C2, as stated, fails on both counts: the immediate 0xB1 (swap lanes
    0,1 and swap lanes 2,3) takes two round trips through the temporary,
    and the immediate 0x02 (lanes 2,0,0,0) takes four lane-to-lane FMVs. *)
Lemma Vec4Shuffle_move_bound_counterexample :
  ~ shuffleMoveBound 3 1 Rid 31%nat (mkIRInst Vec4Shuffle 0 0 0xB1 0) /\
  ~ shuffleMoveBound 3 1 Rid 31%nat (mkIRInst Vec4Shuffle 0 0 0x02 0).
Proof.
  split; intros (A & B & C); vm_compute in A, B, C; lia.
Qed.

(** C2, amended: for every in-place Vec4Shuffle and every 8-bit immediate
    the emitted code is at most 6 FMVs: at most 4 lane-to-lane moves and at
    most 2 round trips through the temporary (as many moves out of it as
    into it). *)
Theorem Vec4Shuffle_inplace_move_bound R tempReg inst :
  op inst = Vec4Shuffle ->
  dest inst = src1 inst ->
  0 <= src2 inst < 256 ->
  (forall i, 0 <= i < 4 -> tempReg <> R (dest inst + i)) ->
  let c := code (CompIR_VecAssign R tempReg inst) in
  shuffleMoveBound 4 2 R tempReg inst /\
  outOfTemp tempReg c = intoTemp tempReg c /\
  length c = (laneToLane tempReg c + intoTemp tempReg c + outOfTemp tempReg c)%nat /\
  (length c <= 6)%nat.
Proof.
  intros Hop Hd Himm Htemp. unfold shuffleMoveBound. cbv zeta.
  rewrite (Vec4Shuffle_inplace_code _ _ _ Hop Hd).
  rewrite shuffleInPlace_plan by assumption.
  pose proof (planChecks_all _ Himm) as Hc. unfold planChecks in Hc.
  apply andb_true_iff in Hc as [Hc Hcnt]. apply andb_true_iff in Hc as [Hbelow _].
  unfold laneToLane, intoTemp, outOfTemp. rewrite length_moves, movesOf_moves.
  rewrite !length_renameMoves.
  pose proof (laneHost_temp R tempReg (dest inst) Htemp) as Ht.
  rewrite (count_rename R tempReg (dest inst)
             (fun p => negb (Nat.eqb (fst p) tempReg) && negb (Nat.eqb (snd p) tempReg))
             (fun p => negb (Nat.eqb (fst p) 4) && negb (Nat.eqb (snd p) 4)))
    by (assumption || (intros a b Ha Hb; cbn [fst snd]; now rewrite !Ht)).
  rewrite (count_rename R tempReg (dest inst)
             (fun p => Nat.eqb (fst p) tempReg) (fun p => Nat.eqb (fst p) 4))
    by (assumption || (intros a b Ha Hb; cbn [fst snd]; now rewrite !Ht)).
  rewrite (count_rename R tempReg (dest inst)
             (fun p => Nat.eqb (snd p) tempReg) (fun p => Nat.eqb (snd p) 4))
    by (assumption || (intros a b Ha Hb; cbn [fst snd]; now rewrite !Ht)).
  cbv zeta in Hcnt.
  repeat (apply andb_true_iff in Hcnt as [Hcnt ?]).
  repeat match goal with
         | H : Nat.leb _ _ = true |- _ => apply Nat.leb_le in H
         | H : Nat.eqb _ _ = true |- _ => apply Nat.eqb_eq in H
         end.
  lia.
Qed.

Lemma Vec4Shuffle_inplace_move_bound_witness :
  let inst := mkIRInst Vec4Shuffle 0 0 0xB1 0 in
  let c := code (CompIR_VecAssign Rid 31%nat inst) in
  shuffleMoveBound 4 2 Rid 31%nat inst /\
  outOfTemp 31%nat c = intoTemp 31%nat c /\
  length c = (laneToLane 31%nat c + intoTemp 31%nat c + outOfTemp 31%nat c)%nat /\
  (length c <= 6)%nat.
Proof.
  apply Vec4Shuffle_inplace_move_bound; try reflexivity; simpl; try lia.
  intros i Hi. unfold Rid. lia.
Defined.

(** * Vec4Blend *)




(** * Vec4Dot *)


Lemma Vec4Dot_code R inst :
  op inst = Vec4Dot ->
  code (CompIR_VecHoriz R inst)
  = if dotOverlaps inst then
      forLanes (fun i => if dotLaneAliased inst i then [dotMul R inst i] else []) ++
      forLanes (fun i => if dotLaneAliased inst i then [] else [dotMadd R inst i])
    else FMUL (R (dest inst)) (R (src1 inst)) (R (src2 inst)) ::
         map (dotMadd R inst) [1; 2; 3].
Proof.
  intros Hop. unfold CompIR_VecHoriz. rewrite Hop.
  rewrite !code_app, !code_fprCalls, code_emit. cbn [app].
  destruct (dotOverlaps inst); reflexivity.
Qed.

(** One multiply into [rd] and three multiply-accumulates on [rd], none of
    which reads a lane from [rd]. *)
Lemma exec_mul_madd3 fp rd a0 b0 a1 b1 a2 b2 a3 b3 s :
  a1 <> rd -> b1 <> rd -> a2 <> rd -> b2 <> rd -> a3 <> rd -> b3 <> rd ->
  getF (exec fp [FMUL rd a0 b0; FMADD rd a1 b1 rd; FMADD rd a2 b2 rd;
                 FMADD rd a3 b3 rd] s) rd
  = fmadd fp (getF s a3) (getF s b3)
      (fmadd fp (getF s a2) (getF s b2)
         (fmadd fp (getF s a1) (getF s b1)
            (fmul fp (getF s a0) (getF s b0)))).
Proof.
  intros. unfold exec. cbn [fold_left step].
  now rewrite !getF_setF_eq, !getF_setF_neq by assumption.
Qed.

(** Deciding the integer comparisons of a routine from the hypotheses. *)
Ltac decide_Z :=
  repeat match goal with
  | |- context [Z.geb ?a ?b] => rewrite (Z.geb_leb a b)
  | |- context [Z.eqb ?a ?b] => destruct (Z.eqb_spec a b); try lia
  | |- context [Z.ltb ?a ?b] => destruct (Z.ltb_spec a b); try lia
  | |- context [Z.leb ?a ?b] => destruct (Z.leb_spec a b); try lia
  end.

(** Known values of the binary32 arithmetic: 1 + 1 = 2; 0.1 + 0.2; 1 / 3;
    2^24 + 1, a tie that goes to the even neighbour; the largest finite
    number doubled; the subnormal 3 * 2^-149 halved; 1 - 1; infinity
    times zero; and the single rounding of FMADD against the two
    roundings of FMUL then FADD on (1 + 2^-12)^2 - (1 + 2^-11). *)
Lemma binary32Ops_values :
  fadd binary32Ops 0x3F800000 0x3F800000 = 0x40000000 /\
  fadd binary32Ops 0x3DCCCCCD 0x3E4CCCCD = 0x3E99999A /\
  fdiv binary32Ops 0x3F800000 0x40400000 = 0x3EAAAAAB /\
  fadd binary32Ops 0x4B800000 0x3F800000 = 0x4B800000 /\
  fmul binary32Ops 0x7F7FFFFF 0x40000000 = 0x7F800000 /\
  fmul binary32Ops 0x00000003 0x3F000000 = 0x00000002 /\
  fsub binary32Ops 0x3F800000 0x3F800000 = 0 /\
  fmul binary32Ops 0x7F800000 0 = 0x7FC00000 /\
  fcvt_s_w binary32Ops 16777217 = 0x4B800000 /\
  fmadd binary32Ops 0x3F800800 0x3F800800 0xBF801000 = 0x33800000 /\
  fadd binary32Ops (fmul binary32Ops 0x3F800800 0x3F800800) 0xBF801000 = 0.
Proof. vm_compute. repeat split. Qed.

(** C3, as stated, fails, in two ways.

    With overlapping source groups the destination can coincide with
    lane 1 of the first source and lane 0 of the second (dest = 1,
    src1 = 0, src2 = 1): the routine then emits two multiplies into the
    destination, the second reading the destination the first has just
    overwritten, and two multiply-accumulates.  On the lanes 2, 3, 5, 7, 11
    it leaves (2*3)*5 + 5*7 + 7*11 = 142 where the sum of the four products
    is 133, even in exact arithmetic.

    And with no aliasing at all (dest = 8, src1 = 0, src2 = 4) the value
    is not the left-to-right sum of the lane products in binary32
    arithmetic, because FMADD rounds once: on the lanes
    -(1 + 2^-11), 1 + 2^-12, 0, 0 and 1, 1 + 2^-12, 0, 0 the product of
    lane 1 is 1 + 2^-11 + 2^-24, which FMADD adds unrounded to
    -(1 + 2^-11), leaving 2^-24 (0x33800000), while the rounded product
    1 + 2^-11 added to the product of lane 0 gives 0. *)
Lemma Vec4Dot_reference_counterexample :
  (let inst := mkIRInst Vec4Dot 1 0 1 0 in
   let s := machineOf [2; 3; 5; 7; 11] in
   injOnRegs Rid (dest inst :: group (src1 inst) ++ group (src2 inst)) /\
   code (CompIR_VecHoriz Rid inst)
     = [FMUL 1%nat 0%nat 1%nat; FMUL 1%nat 1%nat 2%nat;
        FMADD 1%nat 2%nat 3%nat 1%nat; FMADD 1%nat 3%nat 4%nat 1%nat] /\
   getF (exec exactOps (code (CompIR_VecHoriz Rid inst)) s) (Rid (dest inst)) = 142 /\
   dotReference Rid exactOps inst s = 133 /\
   ~ dotClaim Rid exactOps inst s) /\
  (let inst := mkIRInst Vec4Dot 8 0 4 0 in
   let s := machineOf [0xBF801000; 0x3F800800; 0; 0;
                       0x3F800000; 0x3F800800; 0; 0] in
   injOnRegs Rid (dest inst :: group (src1 inst) ++ group (src2 inst)) /\
   ~ dotAliased inst /\
   code (CompIR_VecHoriz Rid inst)
     = [FMUL 8%nat 0%nat 4%nat; FMADD 8%nat 1%nat 5%nat 8%nat;
        FMADD 8%nat 2%nat 6%nat 8%nat; FMADD 8%nat 3%nat 7%nat 8%nat] /\
   getF (exec binary32Ops (code (CompIR_VecHoriz Rid inst)) s) (Rid (dest inst))
     = 0x33800000 /\
   dotReference Rid binary32Ops inst s = 0 /\
   ~ dotClaim Rid binary32Ops inst s).
Proof.
  cbv zeta. split.
  - split; [|split; [|split; [|split]]]; try reflexivity.
    + apply Rid_injOn. repeat constructor; vm_compute; discriminate.
    + intros (A & _). destruct A as (k & Hk & _ & Hc).
      * exists 1. cbn. lia.
      * assert (k = 0 \/ k = 1 \/ k = 2 \/ k = 3) as C by lia.
        destruct C as [-> | [-> | [-> | ->]]]; vm_compute in Hc; discriminate.
  - split; [|split; [|split; [|split; [|split]]]]; try (vm_compute; reflexivity).
    + apply Rid_injOn. repeat constructor; vm_compute; discriminate.
    + intros (i & Hi & H). cbn [dest src1 src2] in H. lia.
    + intros (_ & _ & V). vm_compute in V. discriminate.
Qed.

(** The aliased case of [Vec4Dot] when lane [k] is the only lane one of
    whose registers is the destination. *)
Ltac dot_single_alias_lane Hop Hinj :=
  rewrite (Vec4Dot_code _ _ Hop);
  unfold dotOverlaps, dotLaneAliased, forLanes, lanes4; cbn [flat_map];
  decide_Z; cbn [andb orb app];
  (split;
   [ reflexivity
   | unfold dotMul, dotMadd;
     rewrite exec_mul_madd3 by (intros E; regs_clash Hinj);
     reflexivity ]).

(** C3, amended: for every Vec4Dot instruction whose destination is a
    source lane register for at most one lane number, and in any
    floating-point arithmetic: when the destination is lane k of a source,
    the code is the multiply of lane k into the destination followed by
    the fused multiply-accumulates of the other three lanes in lane order;
    when it is no source lane, the code is the multiply of lane 0 followed
    by the fused multiply-accumulates of lanes 1, 2, 3, however the two
    source groups overlap; and in both cases the destination ends with the
    value of that multiply and those three fused multiply-adds, taken in
    the emitted order on the original source lanes. *)
Theorem Vec4Dot_fused_value R fp inst s :
  op inst = Vec4Dot ->
  dotSingleAlias inst ->
  injOnRegs R (dest inst :: group (src1 inst) ++ group (src2 inst)) ->
  dotFusedClaim R fp inst s.
Proof.
  intros Hop Hs Hinj. unfold dotFusedClaim. cbv zeta. split.
  - intros k Hk Hal.
    assert (forall j, 0 <= j < 4 -> j <> k ->
              dest inst <> src1 inst + j /\ dest inst <> src2 inst + j) as Hn.
    { intros j Hj Hjk. split; intros E; apply Hjk; apply (Hs j k); auto. }
    pose proof (Hn 0 ltac:(lia)) as N0. pose proof (Hn 1 ltac:(lia)) as N1.
    pose proof (Hn 2 ltac:(lia)) as N2. pose proof (Hn 3 ltac:(lia)) as N3.
    clear Hn Hs.
    assert (k = 0 \/ k = 1 \/ k = 2 \/ k = 3) as C by lia.
    destruct C as [-> | [-> | [-> | ->]]].
    + dot_single_alias_lane Hop Hinj.
    + dot_single_alias_lane Hop Hinj.
    + dot_single_alias_lane Hop Hinj.
    + dot_single_alias_lane Hop Hinj.
  - intros N.
    assert (~ (src1 inst <= dest inst < src1 inst + 4) /\
            ~ (src2 inst <= dest inst < src2 inst + 4)) as [N1 N2].
    { split; intros C; apply N;
        [exists (dest inst - src1 inst) | exists (dest inst - src2 inst)]; lia. }
    rewrite (Vec4Dot_code _ _ Hop). unfold dotOverlaps.
    decide_Z; cbn [andb orb];
      (split;
       [ reflexivity
       | unfold dotMadd; cbn [map];
         rewrite exec_mul_madd3 by (intros E; regs_clash Hinj);
         unfold dotFused; cbn [fold_left]; now rewrite !Z.add_0_r ]).
Qed.

Lemma Vec4Dot_fused_value_witness :
  dotFusedClaim Rid binary32Ops (mkIRInst Vec4Dot 0 0 2 0)
    (machineOf [0x3F800000; 0x40000000; 0x40400000; 0x40800000;
                0x40A00000; 0x40C00000]) /\
  dotFusedClaim Rid binary32Ops (mkIRInst Vec4Dot 8 0 4 0)
    (machineOf [0xBF801000; 0x3F800800; 0; 0; 0x3F800000; 0x3F800800; 0; 0]).
Proof.
  split; apply Vec4Dot_fused_value.
  all: try reflexivity.
  all: try (intros j k Hj Hk H1 H2; cbn [dest src1 src2] in H1, H2; lia).
  all: apply Rid_injOn; repeat constructor; vm_compute; discriminate.
Defined.

(** * Integer instruction sequences: clamp, unpack, pack *)

Ltac regs :=
  repeat first
    [ rewrite getF_setF_eq
    | rewrite getF_setX
    | rewrite getX_setF
    | rewrite getX_setX_eq by discriminate
    | rewrite getX_setX_neq by discriminate ].

Lemma signed32_nonneg x : 0 <= x < 2 ^ 31 -> signed32 x = x.
Proof. unfold signed32. intros. Z.div_mod_to_equations. lia. Qed.

Lemma signed32_neg x : 2 ^ 31 <= x < 2 ^ 32 -> signed32 x = x - 2 ^ 32.
Proof. unfold signed32. intros. Z.div_mod_to_equations. lia. Qed.

Lemma signed32_wrap64 v : signed32 (wrap64 v) = signed32 v.
Proof. unfold signed32, wrap64. Z.div_mod_to_equations. lia. Qed.

Lemma signed32_idem v : signed32 (signed32 v) = signed32 v.
Proof. unfold signed32. Z.div_mod_to_equations. lia. Qed.

Lemma wrap32_signed32 x : 0 <= x < 2 ^ 32 -> wrap32 (wrap64 (signed32 x)) = x.
Proof. unfold wrap32, wrap64, signed32. intros. Z.div_mod_to_equations. lia. Qed.

Lemma testbit31 x : 0 <= x < 2 ^ 32 ->
  Z.testbit x 31 = (2 ^ 31 <=? x).
Proof.
  intros H. destruct (Z.leb_spec (2 ^ 31) x) as [L|L].
  - apply Z.testbit_true; [lia|]. Z.div_mod_to_equations. lia.
  - apply Z.testbit_false; [lia|]. Z.div_mod_to_equations. lia.
Qed.

(** NOT then AND computes what ANDN computes, on 64-bit registers. *)
Lemma andn_not_and a b :
  wrap64 (Z.land a (wrap64 (Z.lnot b))) = wrap64 (Z.land a (Z.lnot b)).
Proof.
  unfold wrap64. apply Z.bits_inj'. intros n Hn.
  rewrite !Z.testbit_mod_pow2, !Z.land_spec, Z.testbit_mod_pow2 by lia.
  destruct (n <? 64); destruct (Z.testbit a n); reflexivity.
Qed.

(** The sign mask of SRAIW by 31: all ones or all zeros. *)
Lemma sign_mask x : 0 <= x < 2 ^ 32 ->
  wrap64 (Z.shiftr (signed32 (wrap64 (signed32 x))) 31)
  = if Z.testbit x 31 then 2 ^ 64 - 1 else 0.
Proof.
  intros H. rewrite signed32_wrap64, signed32_idem, testbit31 by assumption.
  rewrite Z.shiftr_div_pow2 by lia. unfold wrap64.
  destruct (Z.leb_spec (2 ^ 31) x) as [L|L].
  - rewrite signed32_neg by lia. Z.div_mod_to_equations. lia.
  - rewrite signed32_nonneg by lia. Z.div_mod_to_equations. lia.
Qed.

Lemma land_lnot_ones64 a : 0 <= a < 2 ^ 64 -> Z.land a (Z.lnot (2 ^ 64 - 1)) = 0.
Proof.
  intros H. change (2 ^ 64 - 1) with (Z.ones 64).
  rewrite <- Z.ldiff_land, Z.ldiff_ones_r by lia.
  rewrite Z.shiftr_div_pow2 by lia. rewrite Z.div_small by assumption.
  reflexivity.
Qed.

(** The value [and-not] leaves for a lane pattern [x] and its sign mask. *)
Lemma clamp_value x : 0 <= x < 2 ^ 32 ->
  wrap32 (wrap64 (Z.land (wrap64 (signed32 x))
                         (Z.lnot (if Z.testbit x 31 then 2 ^ 64 - 1 else 0))))
  = if Z.testbit x 31 then 0 else x.
Proof.
  intros H. destruct (Z.testbit x 31).
  - rewrite land_lnot_ones64; [reflexivity|].
    unfold wrap64. apply Z.mod_pos_bound. lia.
  - change (Z.lnot 0) with (-1). rewrite Z.land_m1_r.
    unfold wrap32, wrap64, signed32. Z.div_mod_to_equations. lia.
Qed.

(** * Vec4ClampToZero *)

(** The two alternatives of one lane leave the same float registers. *)
Lemma clampLane_zbb R fp inst i s1 s2 :
  (forall r, getF s1 r = getF s2 r) ->
  forall r, getF (exec fp (clampLane R true inst i) s1) r
            = getF (exec fp (clampLane R false inst i) s2) r.
Proof.
  intros Hs r. unfold clampLane.
  cbn [app]. rewrite !exec_cons. cbn [step]. unfold exec; cbn [fold_left].
  destruct (Nat.eqb_spec r (R (dest inst + i))) as [->|Hr].
  - regs. rewrite andn_not_and. now rewrite Hs.
  - rewrite !getF_setF_neq by assumption. regs. apply Hs.
Qed.

Lemma Vec4ClampToZero_code R zbb inst :
  op inst = Vec4ClampToZero ->
  code (CompIR_VecClamp R zbb inst)
  = clampLane R zbb inst 0 ++ clampLane R zbb inst 1 ++
    clampLane R zbb inst 2 ++ clampLane R zbb inst 3.
Proof.
  intros Hop. unfold CompIR_VecClamp. rewrite Hop. cbn [code]. rewrite code_emit.
  unfold forLanes, lanes4. cbn [flat_map]. now rewrite app_nil_r.
Qed.

(** Vec4ClampToZero compiled with and without Zbb leaves the same float
    registers. *)
Lemma CompIR_VecClamp_zbb R fp inst s r :
  getF (exec fp (code (CompIR_VecClamp R true inst)) s) r
  = getF (exec fp (code (CompIR_VecClamp R false inst)) s) r.
Proof.
  unfold CompIR_VecClamp. destruct (op inst); try reflexivity.
  cbn [code]. rewrite !code_emit. unfold forLanes, lanes4. cbn [flat_map].
  rewrite !app_nil_r, !exec_app.
  revert r. do 4 apply clampLane_zbb. reflexivity.
Qed.

(** C9: in the clamp-to-zero routine, each iteration of the loop emits
    FMV.X.W and SRAIW, then the alternative the capability query selects
    (the single instruction ANDN when Zbb is available, NOT followed by
    AND otherwise), then FMV.W.X; whichever alternative is selected, for
    every value in SCRATCH1 and every mask in SCRATCH2 it leaves
    value AND NOT mask in SCRATCH1 and its low 32 bits in the destination
    lane; the code of a Vec4ClampToZero instruction is the four iterations
    in lane order, and compiled with and without Zbb it leaves the same
    contents in every float register. *)
Theorem clamp_andn_equiv R zbb fp inst i s :
  let value := getX s SCRATCH1 in
  let mask := getX s SCRATCH2 in
  let selected := skipn 2 (clampLane R zbb inst i) in
  firstn 2 (clampLane R zbb inst i)
    = [FMV_X_W SCRATCH1 (R (src1 inst + i)); SRAIW SCRATCH2 SCRATCH1 31] /\
  selected
    = (if zbb then [ANDN SCRATCH1 SCRATCH1 SCRATCH2]
       else [NOT SCRATCH2 SCRATCH2; AND SCRATCH1 SCRATCH1 SCRATCH2])
      ++ [FMV_W_X (R (dest inst + i)) SCRATCH1] /\
  getX (exec fp selected s) SCRATCH1 = wrap64 (Z.land value (Z.lnot mask)) /\
  getF (exec fp selected s) (R (dest inst + i))
    = wrap32 (wrap64 (Z.land value (Z.lnot mask))) /\
  (op inst = Vec4ClampToZero ->
   code (CompIR_VecClamp R zbb inst)
     = clampLane R zbb inst 0 ++ clampLane R zbb inst 1 ++
       clampLane R zbb inst 2 ++ clampLane R zbb inst 3) /\
  (forall r,
     getF (exec fp (code (CompIR_VecClamp R true inst)) s) r
     = getF (exec fp (code (CompIR_VecClamp R false inst)) s) r).
Proof.
  cbv zeta. split; [|split; [|split; [|split; [|split]]]].
  - destruct zbb; reflexivity.
  - destruct zbb; reflexivity.
  - destruct zbb; unfold clampLane; cbn [app skipn];
      rewrite !exec_cons; cbn [step]; unfold exec; cbn [fold_left]; regs;
      [reflexivity | apply andn_not_and].
  - destruct zbb; unfold clampLane; cbn [app skipn];
      rewrite !exec_cons; cbn [step]; unfold exec; cbn [fold_left]; regs;
      [reflexivity | now rewrite andn_not_and].
  - apply Vec4ClampToZero_code.
  - apply CompIR_VecClamp_zbb.
Qed.

Lemma clamp_andn_equiv_witness :
  code (CompIR_VecClamp Rid false (mkIRInst Vec4ClampToZero 4 0 0 0))
  = clampLane Rid false (mkIRInst Vec4ClampToZero 4 0 0 0) 0 ++
    clampLane Rid false (mkIRInst Vec4ClampToZero 4 0 0 0) 1 ++
    clampLane Rid false (mkIRInst Vec4ClampToZero 4 0 0 0) 2 ++
    clampLane Rid false (mkIRInst Vec4ClampToZero 4 0 0 0) 3.
Proof.
  apply (proj1 (proj2 (proj2 (proj2 (proj2
           (clamp_andn_equiv Rid false exactOps
              (mkIRInst Vec4ClampToZero 4 0 0 0) 0 (machineOf []))))))).
  reflexivity.
Defined.

(** One lane of the clamp loop: the destination lane receives the clamped
    pattern, no other float register changes. *)
Lemma clampLane_exec R zbb fp inst s i x :
  getF s (R (src1 inst + i)) = x ->
  0 <= x < 2 ^ 32 ->
  let s' := exec fp (clampLane R zbb inst i) s in
  getF s' (R (dest inst + i)) = clampToZero x /\
  (forall r, r <> R (dest inst + i) -> getF s' r = getF s r).
Proof.
  intros Hx Hr. cbv zeta. unfold clampLane, clampToZero.
  destruct zbb; cbn [app]; rewrite !exec_cons; cbn [step];
    unfold exec; cbn [fold_left]; (split; [|intros r Hne]).
  - regs. rewrite Hx, sign_mask by assumption. now apply clamp_value.
  - rewrite getF_setF_neq by assumption. now regs.
  - regs. rewrite andn_not_and, Hx, sign_mask by assumption. now apply clamp_value.
  - rewrite getF_setF_neq by assumption. now regs.
Qed.


(** The whole instruction, when the destination group is the source group
    or shares no register with it: every destination lane ends with the
    clamped original content of its source lane. *)
Lemma Vec4ClampToZero_inst R zbb fp inst s :
  op inst = Vec4ClampToZero ->
  dest inst = src1 inst \/ disjointGroups (dest inst) (src1 inst) ->
  injOnRegs R (group (dest inst) ++ group (src1 inst)) ->
  (forall i, 0 <= i < 4 -> 0 <= getF s (R (src1 inst + i)) < 2 ^ 32) ->
  forall i, 0 <= i < 4 ->
    getF (exec fp (code (CompIR_VecClamp R zbb inst)) s) (R (dest inst + i))
    = clampToZero (getF s (R (src1 inst + i))).
Proof.
  intros Hop Hg Hinj Hr i Hi. unfold disjointGroups in Hg.
  rewrite (Vec4ClampToZero_code _ _ _ Hop), !exec_app.
  destruct (clampLane_exec R zbb fp inst s 0 _ eq_refl (Hr 0 ltac:(lia))) as (V0 & K0).
  set (s1 := exec fp (clampLane R zbb inst 0) s) in *.
  assert (getF s1 (R (src1 inst + 1)) = getF s (R (src1 inst + 1))) as E1
    by (apply K0; intros E; regs_clash Hinj).
  destruct (clampLane_exec R zbb fp inst s1 1 _ E1 (Hr 1 ltac:(lia))) as (V1 & K1).
  set (s2 := exec fp (clampLane R zbb inst 1) s1) in *.
  assert (getF s2 (R (src1 inst + 2)) = getF s (R (src1 inst + 2))) as E2
    by (rewrite K1, K0 by (intros E; regs_clash Hinj); reflexivity).
  destruct (clampLane_exec R zbb fp inst s2 2 _ E2 (Hr 2 ltac:(lia))) as (V2 & K2).
  set (s3 := exec fp (clampLane R zbb inst 2) s2) in *.
  assert (getF s3 (R (src1 inst + 3)) = getF s (R (src1 inst + 3))) as E3
    by (rewrite K2, K1, K0 by (intros E; regs_clash Hinj); reflexivity).
  destruct (clampLane_exec R zbb fp inst s3 3 _ E3 (Hr 3 ltac:(lia))) as (V3 & K3).
  set (s4 := exec fp (clampLane R zbb inst 3) s3) in *.
  assert (i = 0 \/ i = 1 \/ i = 2 \/ i = 3) as C by lia.
  destruct C as [-> | [-> | [-> | ->]]].
  - rewrite K3, K2, K1 by (intros E; regs_clash Hinj). exact V0.
  - rewrite K3, K2 by (intros E; regs_clash Hinj). exact V1.
  - rewrite K3 by (intros E; regs_clash Hinj). exact V2.
  - exact V3.
Qed.




(** * Vec4Unpack8To32 and Vec4Pack31To8 *)

Lemma land255 a : Z.land a 255 = a mod 2 ^ 8.
Proof. change 255 with (Z.ones 8). apply Z.land_ones. lia. Qed.

Lemma byteOf_range x i : 0 <= byteOf x i < 256.
Proof. unfold byteOf. rewrite land255. apply Z.mod_pos_bound. lia. Qed.

Lemma unpack_value0 x : 0 <= x < 2 ^ 32 ->
  wrap32 (wrap64 (Z.shiftl (wrap64 (signed32 x)) 24)) = Z.shiftl (byteOf x 0) 24.
Proof.
  intros H. unfold byteOf. rewrite land255. unfold wrap32, wrap64, signed32.
  rewrite !Z.shiftl_mul_pow2, !Z.shiftr_div_pow2 by lia.
  Z.div_mod_to_equations. lia.
Qed.

Lemma unpack_value x i : 0 <= x < 2 ^ 32 -> 1 <= i < 4 ->
  wrap32 (wrap64 (Z.shiftl (wrap64 (Z.shiftr (wrap64 (signed32 x)) (i * 8))) 24))
  = Z.shiftl (byteOf x i) 24.
Proof.
  intros H Hi. unfold byteOf. rewrite land255. unfold wrap32, wrap64, signed32.
  assert (i = 1 \/ i = 2 \/ i = 3) as C by lia.
  destruct C as [-> | [-> | ->]];
    rewrite !Z.shiftl_mul_pow2, !Z.shiftr_div_pow2 by lia;
    Z.div_mod_to_equations; lia.
Qed.

(** The bits of a byte moved to bits 31..24. *)
Lemma shifted_byte_bits x i : 0 <= i ->
  let lane := Z.shiftl (byteOf x i) 24 in
  0 <= lane < 2 ^ 32 /\
  (forall n, 0 <= n < 24 -> Z.testbit lane n = false) /\
  (forall n, 24 <= n < 32 -> Z.testbit lane n = Z.testbit x (8 * i + (n - 24))).
Proof.
  intros Hi lane. subst lane. split; [|split].
  - pose proof (byteOf_range x i). rewrite Z.shiftl_mul_pow2 by lia. lia.
  - intros n Hn. apply Z.shiftl_spec_low. lia.
  - intros n Hn. rewrite Z.shiftl_spec by lia. unfold byteOf.
    rewrite Z.land_spec, Z.shiftr_spec by lia.
    change 255 with (Z.ones 8). rewrite Z.ones_spec_low by lia.
    rewrite andb_true_r. f_equal. lia.
Qed.

Lemma Vec4Unpack8To32_code R inst :
  op inst = Vec4Unpack8To32 ->
  code (CompIR_VecPack R inst)
  = [FMV_X_W SCRATCH2 (R (src1 inst))] ++
    unpackLane R inst 0 ++ unpackLane R inst 1 ++
    unpackLane R inst 2 ++ unpackLane R inst 3.
Proof.
  intros Hop. unfold CompIR_VecPack. rewrite Hop.
  rewrite !code_app, !code_fprCalls, code_emit.
  unfold forLanes, lanes4. cbn [flat_map app]. now rewrite app_nil_r.
Qed.

(** One lane of the unpack loop: SCRATCH2 keeps the source word, the
    destination lane receives the byte, no other float register changes. *)
Lemma unpackLane_exec R fp inst i s x :
  0 <= x < 2 ^ 32 -> 0 <= i < 4 ->
  getX s SCRATCH2 = wrap64 (signed32 x) ->
  let s' := exec fp (unpackLane R inst i) s in
  getX s' SCRATCH2 = wrap64 (signed32 x) /\
  getF s' (R (dest inst + i)) = Z.shiftl (byteOf x i) 24 /\
  (forall r, r <> R (dest inst + i) -> getF s' r = getF s r).
Proof.
  intros Hx Hi HS. cbv zeta. unfold unpackLane.
  destruct (Z.eqb_spec i 0) as [E|E]; cbn [negb app];
    rewrite !exec_cons; cbn [step]; unfold exec; cbn [fold_left].
  - subst i. split; [|split].
    + now regs.
    + regs. rewrite HS. now apply unpack_value0.
    + intros r Hr. rewrite getF_setF_neq by assumption. now regs.
  - split; [|split].
    + now regs.
    + regs. rewrite HS. apply unpack_value; lia.
    + intros r Hr. rewrite getF_setF_neq by assumption. now regs.
Qed.

Lemma unpack_exec_lane R fp inst s x i :
  op inst = Vec4Unpack8To32 ->
  injOnRegs R (group (dest inst)) ->
  getF s (R (src1 inst)) = x ->
  0 <= x < 2 ^ 32 ->
  0 <= i < 4 ->
  getF (exec fp (code (CompIR_VecPack R inst)) s) (R (dest inst + i))
  = Z.shiftl (byteOf x i) 24.
Proof.
  intros Hop Hinj Hx Hr Hi.
  rewrite (Vec4Unpack8To32_code _ _ Hop), !exec_app.
  set (s0 := exec fp [FMV_X_W SCRATCH2 (R (src1 inst))] s).
  assert (getX s0 SCRATCH2 = wrap64 (signed32 x)) as H0.
  { subst s0. rewrite exec_cons. cbn [step]. unfold exec; cbn [fold_left].
    regs. now rewrite Hx. }
  destruct (unpackLane_exec R fp inst 0 s0 x Hr ltac:(lia) H0) as (H1 & V0 & K0).
  set (s1 := exec fp (unpackLane R inst 0) s0) in *.
  destruct (unpackLane_exec R fp inst 1 s1 x Hr ltac:(lia) H1) as (H2 & V1 & K1).
  set (s2 := exec fp (unpackLane R inst 1) s1) in *.
  destruct (unpackLane_exec R fp inst 2 s2 x Hr ltac:(lia) H2) as (H3 & V2 & K2).
  set (s3 := exec fp (unpackLane R inst 2) s2) in *.
  destruct (unpackLane_exec R fp inst 3 s3 x Hr ltac:(lia) H3) as (_ & V3 & K3).
  set (s4 := exec fp (unpackLane R inst 3) s3) in *.
  assert (i = 0 \/ i = 1 \/ i = 2 \/ i = 3) as C by lia.
  destruct C as [-> | [-> | [-> | ->]]].
  - rewrite K3, K2, K1 by (intros E; regs_clash Hinj). exact V0.
  - rewrite K3, K2 by (intros E; regs_clash Hinj). exact V1.
  - rewrite K3 by (intros E; regs_clash Hinj). exact V2.
  - exact V3.
Qed.

(** C10: for every Vec4Unpack8To32 instruction and every 32-bit source
    pattern, destination lane i receives byte i of the source in its bits
    31..24 and zeros in its bits 23..0. *)
Theorem Vec4Unpack8To32_lanes R fp inst s x i :
  op inst = Vec4Unpack8To32 ->
  injOnRegs R (group (dest inst)) ->
  getF s (R (src1 inst)) = x ->
  0 <= x < 2 ^ 32 ->
  0 <= i < 4 ->
  let lane := getF (exec fp (code (CompIR_VecPack R inst)) s) (R (dest inst + i)) in
  lane = Z.shiftl (byteOf x i) 24 /\
  0 <= lane < 2 ^ 32 /\
  (forall n, 0 <= n < 24 -> Z.testbit lane n = false) /\
  (forall n, 24 <= n < 32 -> Z.testbit lane n = Z.testbit x (8 * i + (n - 24))).
Proof.
  intros Hop Hinj Hx Hr Hi lane. subst lane.
  rewrite (unpack_exec_lane R fp inst s x i) by assumption.
  split; [reflexivity|]. apply shifted_byte_bits. lia.
Qed.

Lemma Vec4Unpack8To32_lanes_witness :
  getF (exec exactOps (code (CompIR_VecPack Rid (mkIRInst Vec4Unpack8To32 4 0 0 0)))
             (machineOf [0x44332211])) (Rid (4 + 2))
  = Z.shiftl (byteOf 0x44332211 2) 24.
Proof.
  apply (Vec4Unpack8To32_lanes Rid exactOps (mkIRInst Vec4Unpack8To32 4 0 0 0)
           (machineOf [0x44332211]) 0x44332211 2).
  - reflexivity.
  - apply Rid_injOn. repeat constructor; vm_compute; discriminate.
  - reflexivity.
  - simpl; lia.
  - lia.
Defined.

Lemma packByte_range l : 0 <= packByte l < 256.
Proof. unfold packByte. rewrite land255. apply Z.mod_pos_bound. lia. Qed.

Lemma pack_byte l : 0 <= l < 2 ^ 32 ->
  wrap64 (Z.land (wrap64 (Z.shiftr (wrap64 (signed32 l)) 23)) 255) = packByte l.
Proof.
  intros H. unfold packByte. rewrite !land255. unfold wrap64, signed32.
  rewrite !Z.shiftr_div_pow2 by lia. Z.div_mod_to_equations. lia.
Qed.

Lemma lor_shiftl_add a b k : 0 <= k -> 0 <= a < 2 ^ k ->
  Z.lor a (Z.shiftl b k) = a + b * 2 ^ k.
Proof.
  intros Hk Ha. rewrite <- Z.shiftl_mul_pow2 by assumption.
  rewrite <- Z.lxor_lor, <- Z.add_nocarry_lxor; try reflexivity.
  all: apply Z.bits_inj'; intros n Hn; rewrite Z.land_spec, Z.bits_0;
    destruct (Z.ltb_spec n k) as [L|L].
  all: try (rewrite (Z.shiftl_spec_low b k n L); apply andb_false_r).
  all: rewrite <- (Z.mod_small a (2 ^ k)) by assumption;
       rewrite Z.mod_pow2_bits_high by lia; reflexivity.
Qed.

Lemma packByte_unpacked b : 0 <= b < 256 ->
  packByte (Z.shiftl b 24) = (2 * b) mod 256.
Proof.
  intros H. unfold packByte. rewrite land255.
  rewrite Z.shiftl_mul_pow2, Z.shiftr_div_pow2 by lia.
  Z.div_mod_to_equations. lia.
Qed.

Lemma Vec4Pack31To8_code R inst :
  op inst = Vec4Pack31To8 ->
  code (CompIR_VecPack R inst)
  = packLane R inst 0 ++ packLane R inst 1 ++ packLane R inst 2 ++
    packLane R inst 3 ++ [FMV_W_X (R (dest inst)) SCRATCH2].
Proof.
  intros Hop. unfold CompIR_VecPack. rewrite Hop.
  rewrite !code_app, !code_fprCalls, code_emit.
  unfold forLanes, lanes4. cbn [flat_map app]. now rewrite app_nil_r, <- !app_assoc.
Qed.

(** Lane 0 of the pack loop starts the word in SCRATCH2. *)
Lemma packLane0_exec R fp inst s l :
  getF s (R (src1 inst + 0)) = l -> 0 <= l < 2 ^ 32 ->
  let s' := exec fp (packLane R inst 0) s in
  getX s' SCRATCH2 = packByte l /\ (forall r, getF s' r = getF s r).
Proof.
  intros Hl Hr. cbv zeta. unfold packLane. cbn [Z.eqb app].
  rewrite !exec_cons. cbn [step]. unfold exec; cbn [fold_left]. split.
  - regs. rewrite Hl. now apply pack_byte.
  - intros r. now regs.
Qed.

(** Lanes 1..3 of the pack loop OR their byte into SCRATCH2 at bit 8i. *)
Lemma packLane_exec R fp inst i s l acc :
  1 <= i < 4 ->
  getF s (R (src1 inst + i)) = l -> 0 <= l < 2 ^ 32 ->
  getX s SCRATCH2 = acc -> 0 <= acc < 2 ^ (8 * i) ->
  let s' := exec fp (packLane R inst i) s in
  getX s' SCRATCH2 = acc + packByte l * 2 ^ (8 * i) /\
  (forall r, getF s' r = getF s r).
Proof.
  intros Hi Hl Hr Hacc Ha. cbv zeta. unfold packLane.
  destruct (Z.eqb_spec i 0) as [E|_]; [lia|]. cbn [app].
  rewrite !exec_cons. cbn [step]. unfold exec; cbn [fold_left]. split.
  - regs. rewrite Hl, Hacc, pack_byte by assumption.
    pose proof (packByte_range l) as Hb.
    assert (wrap64 (Z.shiftl (packByte l) (8 * i)) = Z.shiftl (packByte l) (8 * i)) as ->.
    { unfold wrap64. apply Z.mod_small. rewrite Z.shiftl_mul_pow2 by lia.
      assert (i = 1 \/ i = 2 \/ i = 3) as C by lia.
      destruct C as [-> | [-> | ->]]; cbn; lia. }
    rewrite lor_shiftl_add by lia.
    unfold wrap64. apply Z.mod_small.
    assert (i = 1 \/ i = 2 \/ i = 3) as C by lia.
    destruct C as [-> | [-> | ->]]; cbn in *; lia.
  - intros r. now regs.
Qed.

(** The word [Vec4Pack31To8] leaves in the destination: the bytes taken
    from bits 30..23 of the four source lanes. *)
Lemma pack_exec R fp inst s l0 l1 l2 l3 :
  op inst = Vec4Pack31To8 ->
  getF s (R (src1 inst + 0)) = l0 -> 0 <= l0 < 2 ^ 32 ->
  getF s (R (src1 inst + 1)) = l1 -> 0 <= l1 < 2 ^ 32 ->
  getF s (R (src1 inst + 2)) = l2 -> 0 <= l2 < 2 ^ 32 ->
  getF s (R (src1 inst + 3)) = l3 -> 0 <= l3 < 2 ^ 32 ->
  getF (exec fp (code (CompIR_VecPack R inst)) s) (R (dest inst))
  = packByte l0 + packByte l1 * 2 ^ 8 + packByte l2 * 2 ^ 16 + packByte l3 * 2 ^ 24.
Proof.
  intros Hop E0 R0 E1 R1 E2 R2 E3 R3.
  rewrite (Vec4Pack31To8_code _ _ Hop), !exec_app.
  pose proof (packByte_range l0). pose proof (packByte_range l1).
  pose proof (packByte_range l2). pose proof (packByte_range l3).
  destruct (packLane0_exec R fp inst s l0 E0 R0) as (A0 & K0).
  set (s1 := exec fp (packLane R inst 0) s) in *.
  destruct (packLane_exec R fp inst 1 s1 l1 (packByte l0) ltac:(lia)
              ltac:(now rewrite K0) R1 A0 ltac:(cbn; lia)) as (A1 & K1).
  set (s2 := exec fp (packLane R inst 1) s1) in *.
  destruct (packLane_exec R fp inst 2 s2 l2 _ ltac:(lia)
              ltac:(now rewrite K1, K0) R2 A1 ltac:(cbn; lia)) as (A2 & K2).
  set (s3 := exec fp (packLane R inst 2) s2) in *.
  destruct (packLane_exec R fp inst 3 s3 l3 _ ltac:(lia)
              ltac:(now rewrite K2, K1, K0) R3 A2 ltac:(cbn; lia)) as (A3 & K3).
  set (s4 := exec fp (packLane R inst 3) s3) in *.
  rewrite exec_cons. cbn [step]. unfold exec; cbn [fold_left].
  rewrite getF_setF_eq, A3. unfold wrap32. apply Z.mod_small. cbn. lia.
Qed.

(** C5, as stated, fails: Vec4Unpack8To32 puts byte i in bits 31..24 of
    lane i, Vec4Pack31To8 takes bits 30..23 of each lane, so every byte
    comes back shifted left by one.  The word 0x04030201 comes back as
    0x08060402, and the byte value 0xFF as 0xFE. *)
Lemma pack_unpack_counterexample :
  let unpack := mkIRInst Vec4Unpack8To32 4 0 0 0 in
  let pack := mkIRInst Vec4Pack31To8 8 4 0 0 in
  unpackThenPack Rid exactOps unpack pack (machineOf [0x04030201]) = 0x08060402 /\
  unpackThenPack Rid exactOps unpack pack (machineOf [0x04030201]) <> 0x04030201 /\
  unpackThenPack Rid exactOps unpack pack (machineOf [0xFF]) = 0xFE.
Proof.
  cbv zeta. split; [|split]; [reflexivity | | reflexivity].
  vm_compute. discriminate.
Qed.

(** C5, amended: unpacking a 32-bit word with Vec4Unpack8To32 and packing
    the four lanes again with Vec4Pack31To8 gives, in each byte position,
    twice the original byte modulo 256 (the byte shifted left by one, its
    top bit lost); the original word comes back only when it is zero. *)
Theorem pack_unpack_doubles R fp unpack pack s x :
  op unpack = Vec4Unpack8To32 ->
  op pack = Vec4Pack31To8 ->
  src1 pack = dest unpack ->
  injOnRegs R (group (dest unpack)) ->
  getF s (R (src1 unpack)) = x ->
  0 <= x < 2 ^ 32 ->
  let y := unpackThenPack R fp unpack pack s in
  y = (2 * byteOf x 0) mod 256 + (2 * byteOf x 1) mod 256 * 2 ^ 8
      + (2 * byteOf x 2) mod 256 * 2 ^ 16 + (2 * byteOf x 3) mod 256 * 2 ^ 24 /\
  (forall i, 0 <= i < 4 -> byteOf y i = (2 * byteOf x i) mod 256) /\
  (y = x <-> x = 0).
Proof.
  intros Hu Hp Hsrc Hinj Hx Hr y.
  assert (y = (2 * byteOf x 0) mod 256 + (2 * byteOf x 1) mod 256 * 2 ^ 8
              + (2 * byteOf x 2) mod 256 * 2 ^ 16
              + (2 * byteOf x 3) mod 256 * 2 ^ 24) as E.
  { subst y. unfold unpackThenPack.
    pose proof (fun i Hi => unpack_exec_lane R fp unpack s x i Hu Hinj Hx Hr Hi) as L.
    pose proof (proj1 (shifted_byte_bits x 0 ltac:(lia))) as B0.
    pose proof (proj1 (shifted_byte_bits x 1 ltac:(lia))) as B1.
    pose proof (proj1 (shifted_byte_bits x 2 ltac:(lia))) as B2.
    pose proof (proj1 (shifted_byte_bits x 3 ltac:(lia))) as B3.
    rewrite (pack_exec R fp pack _ _ _ _ _ Hp
               ltac:(rewrite Hsrc; apply L; lia) B0
               ltac:(rewrite Hsrc; apply L; lia) B1
               ltac:(rewrite Hsrc; apply L; lia) B2
               ltac:(rewrite Hsrc; apply L; lia) B3).
    now rewrite !packByte_unpacked by apply byteOf_range. }
  split; [exact E | split].
  - intros i Hi. rewrite E.
    pose proof (byteOf_range x 0). pose proof (byteOf_range x 1).
    pose proof (byteOf_range x 2). pose proof (byteOf_range x 3).
    assert (i = 0 \/ i = 1 \/ i = 2 \/ i = 3) as C by lia.
    destruct C as [-> | [-> | [-> | ->]]];
      unfold byteOf at 1; rewrite land255, Z.shiftr_div_pow2 by lia;
      Z.div_mod_to_equations; lia.
  - rewrite E. unfold byteOf. rewrite !land255, !Z.shiftr_div_pow2 by lia.
    split; intros; Z.div_mod_to_equations; lia.
Qed.

Lemma pack_unpack_doubles_witness :
  byteOf (unpackThenPack Rid exactOps (mkIRInst Vec4Unpack8To32 4 0 0 0)
            (mkIRInst Vec4Pack31To8 8 4 0 0) (machineOf [0x04030201])) 1
  = (2 * byteOf 0x04030201 1) mod 256.
Proof.
  assert (injOnRegs Rid (group 4)) as Hinj
    by (apply Rid_injOn; repeat constructor; vm_compute; discriminate).
  apply (proj1 (proj2 (pack_unpack_doubles Rid exactOps
           (mkIRInst Vec4Unpack8To32 4 0 0 0) (mkIRInst Vec4Pack31To8 8 4 0 0)
           (machineOf [0x04030201]) 0x04030201
           eq_refl eq_refl eq_refl Hinj eq_refl ltac:(simpl; lia)))).
  lia.
Defined.

(** * Register-cache protocol and fallback *)

Lemma calls_emit l : calls (emit l) = [].
Proof. induction l as [|i l IH]; simpl; [reflexivity | exact IH]. Qed.

Lemma calls_fprCalls l : calls (fprCalls l) = l.
Proof. induction l as [|c l IH]; simpl; [reflexivity | now rewrite IH]. Qed.

Lemma calls_app t u : calls (t ++ u) = calls t ++ calls u.
Proof.
  induction t as [|e t IH]; simpl; [reflexivity|].
  destruct e; simpl; now rewrite IH.
Qed.



(** Bringing the register-cache calls of a routine to a list of calls. *)
Ltac routine_calls :=
  unfold CompIR, CompIR_VecAssign, CompIR_VecArith, CompIR_VecHoriz,
         CompIR_VecPack, CompIR_VecClamp, INVALIDOP;
  match goal with
  | |- context [op ?inst] => destruct (op inst)
  end;
  try match goal with
  | |- context [Z.eqb ?a ?b] => destruct (Z.eqb a b)
  end;
  cbn [calls]; rewrite ?calls_app, ?calls_fprCalls, ?calls_emit;
  unfold forLanes, lanes4; cbn [flat_map app calls].

(** C7, as stated, fails: the Vec4Pack31To8 case locks and maps the source
    registers one at a time, so the SpillLock of source lane 1 comes after
    the MapReg of source lane 0. *)
Lemma Vec4Pack31To8_locks_counterexample :
  let inst := mkIRInst Vec4Pack31To8 8 4 0 0 in
  calls (CompIR Rid 31%nat false VecPack inst)
    = [SpillLock 8;
       SpillLock 4; MapReg 4 INIT; SpillLock 5; MapReg 5 INIT;
       SpillLock 6; MapReg 6 INIT; SpillLock 7; MapReg 7 INIT;
       MapReg 8 NOINIT; ReleaseSpillLocksAndDiscardTemps] /\
  locksFirst false (calls (CompIR Rid 31%nat false VecPack inst)) = false.
Proof. split; reflexivity. Qed.

(** C7, amended: in every vector code-generation routine and for every
    instruction, each register handed to MapReg is under a spill lock the
    routine took earlier and still holds; and, except for Vec4Pack31To8
    (which locks and maps its source lanes one at a time), every SpillLock
    call comes before the first mapping call. *)
Theorem spill_locks_cover_maps R tempReg zbb r inst :
  mapsLocked [] (calls (CompIR R tempReg zbb r inst)) /\
  (op inst <> Vec4Pack31To8 ->
   locksFirst false (calls (CompIR R tempReg zbb r inst)) = true).
Proof.
  split.
  - destruct r; routine_calls; cbn [mapsLocked In]; auto 20.
  - intros Hop. destruct r; revert Hop; routine_calls; intros Hop;
      try reflexivity; contradiction.
Qed.

Lemma spill_locks_cover_maps_witness :
  let inst := mkIRInst Vec4Dot 8 0 4 0 in
  mapsLocked [] (calls (CompIR Rid 31%nat false VecHoriz inst)) /\
  locksFirst false (calls (CompIR Rid 31%nat false VecHoriz inst)) = true.
Proof.
  cbv zeta.
  pose proof (spill_locks_cover_maps Rid 31%nat false VecHoriz
                (mkIRInst Vec4Dot 8 0 4 0)) as [A B].
  split; [exact A | apply B; discriminate].
Defined.

Ltac routine_trace :=
  unfold CompIR, CompIR_VecAssign, CompIR_VecArith, CompIR_VecHoriz,
         CompIR_VecPack, CompIR_VecClamp, INVALIDOP, delegated, nativeOnly;
  match goal with
  | |- context [op ?inst] => destruct (op inst)
  end;
  try match goal with
  | |- context [Z.eqb ?a ?b] => destruct (Z.eqb a b)
  end.









(** * Further properties of the routines *)

(** ** Vec4DuplicateUpperBitsAndShift1, Vec2Pack32To16, Vec4Pack31To8 *)

Lemma wrap32_wrap64 v : wrap32 (wrap64 v) = wrap32 v.
Proof. unfold wrap32, wrap64. Z.div_mod_to_equations. lia. Qed.

Lemma wrap32_signed v : wrap32 (signed32 v) = wrap32 v.
Proof. unfold wrap32, signed32. Z.div_mod_to_equations. lia. Qed.

Lemma wrap32_lor a b : wrap32 (Z.lor a b) = Z.lor (wrap32 a) (wrap32 b).
Proof.
  unfold wrap32. rewrite <- !Z.land_ones by lia. apply Z.land_lor_distr_l.
Qed.

Lemma wrap32_range v : 0 <= wrap32 v < 2 ^ 32.
Proof. unfold wrap32. apply Z.mod_pos_bound. lia. Qed.

Lemma wrap32_small v : 0 <= v < 2 ^ 32 -> wrap32 v = v.
Proof. unfold wrap32. intros. now apply Z.mod_small. Qed.

Lemma shiftr_range a k : 0 <= a < 2 ^ 32 -> 0 <= k -> 0 <= Z.shiftr a k < 2 ^ 32.
Proof.
  intros Ha Hk. rewrite Z.shiftr_div_pow2 by assumption.
  assert (0 < 2 ^ k) by (apply Z.pow_pos_nonneg; lia).
  split; [apply Z.div_pos; lia|].
  apply Z.le_lt_trans with a; [|lia]. apply Z.div_le_upper_bound; nia.
Qed.

Lemma lor_range a b : 0 <= a < 2 ^ 32 -> 0 <= b < 2 ^ 32 -> 0 <= Z.lor a b < 2 ^ 32.
Proof.
  intros Ha Hb. rewrite <- (wrap32_small a), <- (wrap32_small b) by assumption.
  rewrite <- wrap32_lor. apply wrap32_range.
Qed.

(** SRLIW followed by a read of the low word: the 32-bit logical shift. *)
Lemma srliw_low v k : 0 <= k ->
  wrap32 (wrap64 (signed32 (Z.shiftr (wrap32 v) k))) = Z.shiftr (wrap32 v) k.
Proof.
  intros Hk. rewrite wrap32_wrap64, wrap32_signed.
  apply wrap32_small, shiftr_range; [apply wrap32_range | assumption].
Qed.

Lemma dup_value x : 0 <= x < 2 ^ 32 ->
  let s1 := wrap64 (signed32 x) in
  let s2 := wrap64 (signed32 (Z.shiftr (wrap32 s1) 8)) in
  let s1' := wrap64 (Z.lor s1 s2) in
  let s2' := wrap64 (signed32 (Z.shiftr (wrap32 s1') 16)) in
  let s1'' := wrap64 (Z.lor s1' s2') in
  wrap32 (wrap64 (signed32 (Z.shiftr (wrap32 s1'') 1)))
  = duplicateUpperBitsAndShift1 x.
Proof.
  intros Hx. cbv zeta. unfold duplicateUpperBitsAndShift1.
  rewrite srliw_low by lia.
  rewrite wrap32_wrap64, wrap32_lor, srliw_low by lia.
  rewrite wrap32_wrap64, wrap32_lor, srliw_low by lia.
  rewrite wrap32_signed32 by assumption. reflexivity.
Qed.

Lemma Vec4DuplicateUpperBitsAndShift1_code R inst :
  op inst = Vec4DuplicateUpperBitsAndShift1 ->
  code (CompIR_VecPack R inst)
  = dupLane R inst 0 ++ dupLane R inst 1 ++ dupLane R inst 2 ++ dupLane R inst 3.
Proof.
  intros Hop. unfold CompIR_VecPack. rewrite Hop. cbn [code]. rewrite code_emit.
  reflexivity.
Qed.

(** One lane of the loop: the destination lane receives the duplicated
    pattern, no other float register changes. *)
Lemma dupLane_exec R fp inst s i x :
  getF s (R (src1 inst + i)) = x ->
  0 <= x < 2 ^ 32 ->
  let s' := exec fp (dupLane R inst i) s in
  getF s' (R (dest inst + i)) = duplicateUpperBitsAndShift1 x /\
  (forall r, r <> R (dest inst + i) -> getF s' r = getF s r).
Proof.
  intros Hx Hr. cbv zeta. unfold dupLane.
  rewrite !exec_cons. cbn [step]. unfold exec; cbn [fold_left]. split.
  - regs. rewrite Hx. now apply dup_value.
  - intros r Hne. rewrite getF_setF_neq by assumption. now regs.
Qed.

(** Four lane bodies in lane order, each reading lane i of two source
    groups and writing lane i of the destination group only: when each
    source group is the destination group or shares no register with it,
    every destination lane is computed from the original source lanes. *)
Lemma lanewise_exec fp R (body : Z -> list RiscVInst) (F : Z -> Z -> Z)
    (ok : Z -> Prop) d a b s :
  (forall i st, 0 <= i < 4 -> ok (getF st (R (a + i))) ->
     getF (exec fp (body i) st) (R (d + i))
       = F (getF st (R (a + i))) (getF st (R (b + i))) /\
     (forall r, r <> R (d + i) -> getF (exec fp (body i) st) r = getF st r)) ->
  d = a \/ disjointGroups d a ->
  d = b \/ disjointGroups d b ->
  injOnRegs R (group d ++ group a ++ group b) ->
  (forall i, 0 <= i < 4 -> ok (getF s (R (a + i)))) ->
  forall i, 0 <= i < 4 ->
    getF (exec fp (body 0 ++ body 1 ++ body 2 ++ body 3) s) (R (d + i))
    = F (getF s (R (a + i))) (getF s (R (b + i))).
Proof.
  intros Hbody Ha Hb Hinj Hok i Hi. unfold disjointGroups in Ha, Hb.
  rewrite !exec_app.
  destruct (Hbody 0 s ltac:(lia) (Hok 0 ltac:(lia))) as (V0 & K0).
  set (s1 := exec fp (body 0) s) in *.
  assert (getF s1 (R (a + 1)) = getF s (R (a + 1))) as A1
    by (apply K0; intros E; regs_clash Hinj).
  assert (getF s1 (R (b + 1)) = getF s (R (b + 1))) as B1
    by (apply K0; intros E; regs_clash Hinj).
  destruct (Hbody 1 s1 ltac:(lia) ltac:(rewrite A1; apply Hok; lia)) as (V1 & K1).
  set (s2 := exec fp (body 1) s1) in *.
  assert (getF s2 (R (a + 2)) = getF s (R (a + 2))) as A2
    by (rewrite K1, K0 by (intros E; regs_clash Hinj); reflexivity).
  assert (getF s2 (R (b + 2)) = getF s (R (b + 2))) as B2
    by (rewrite K1, K0 by (intros E; regs_clash Hinj); reflexivity).
  destruct (Hbody 2 s2 ltac:(lia) ltac:(rewrite A2; apply Hok; lia)) as (V2 & K2).
  set (s3 := exec fp (body 2) s2) in *.
  assert (getF s3 (R (a + 3)) = getF s (R (a + 3))) as A3
    by (rewrite K2, K1, K0 by (intros E; regs_clash Hinj); reflexivity).
  assert (getF s3 (R (b + 3)) = getF s (R (b + 3))) as B3
    by (rewrite K2, K1, K0 by (intros E; regs_clash Hinj); reflexivity).
  destruct (Hbody 3 s3 ltac:(lia) ltac:(rewrite A3; apply Hok; lia)) as (V3 & K3).
  set (s4 := exec fp (body 3) s3) in *.
  assert (i = 0 \/ i = 1 \/ i = 2 \/ i = 3) as C by lia.
  destruct C as [-> | [-> | [-> | ->]]].
  - rewrite K3, K2, K1 by (intros E; regs_clash Hinj). exact V0.
  - rewrite K3, K2 by (intros E; regs_clash Hinj). rewrite V1, A1, B1. reflexivity.
  - rewrite K3 by (intros E; regs_clash Hinj). rewrite V2, A2, B2. reflexivity.
  - rewrite V3, A3, B3. reflexivity.
Qed.

Lemma injOn_dup R d a :
  injOnRegs R (group d ++ group a) -> injOnRegs R (group d ++ group a ++ group a).
Proof.
  intros H x y Hx Hy. apply H; rewrite !in_app_iff in *; tauto.
Qed.

Lemma dup_inst_exec R fp inst s :
  op inst = Vec4DuplicateUpperBitsAndShift1 ->
  dest inst = src1 inst \/ disjointGroups (dest inst) (src1 inst) ->
  injOnRegs R (group (dest inst) ++ group (src1 inst)) ->
  (forall i, 0 <= i < 4 -> 0 <= getF s (R (src1 inst + i)) < 2 ^ 32) ->
  forall i, 0 <= i < 4 ->
    getF (exec fp (code (CompIR_VecPack R inst)) s) (R (dest inst + i))
    = duplicateUpperBitsAndShift1 (getF s (R (src1 inst + i))).
Proof.
  intros Hop Hg Hinj Hr i Hi.
  rewrite (Vec4DuplicateUpperBitsAndShift1_code _ _ Hop).
  apply (lanewise_exec fp R (dupLane R inst)
           (fun x _ => duplicateUpperBitsAndShift1 x)
           (fun x => 0 <= x < 2 ^ 32)
           (dest inst) (src1 inst) (src1 inst)); try assumption.
  - intros j st Hj Hx. now apply dupLane_exec.
  - now apply injOn_dup.
Qed.

(** X1: for every Vec4DuplicateUpperBitsAndShift1 instruction whose
    destination group is the source group or shares no register with it,
    every destination lane ends with ((x | x >> 8) | ((x | x >> 8) >> 16)) >> 1
    of the original 32-bit pattern x of its source lane. *)
Theorem Vec4DuplicateUpperBitsAndShift1_lanes R fp inst s :
  op inst = Vec4DuplicateUpperBitsAndShift1 ->
  dest inst = src1 inst \/ disjointGroups (dest inst) (src1 inst) ->
  injOnRegs R (group (dest inst) ++ group (src1 inst)) ->
  (forall i, 0 <= i < 4 -> 0 <= getF s (R (src1 inst + i)) < 2 ^ 32) ->
  forall i, 0 <= i < 4 ->
    getF (exec fp (code (CompIR_VecPack R inst)) s) (R (dest inst + i))
    = duplicateUpperBitsAndShift1 (getF s (R (src1 inst + i))).
Proof. exact (dup_inst_exec R fp inst s). Qed.

Lemma Vec4DuplicateUpperBitsAndShift1_lanes_witness :
  getF (exec exactOps
          (code (CompIR_VecPack Rid (mkIRInst Vec4DuplicateUpperBitsAndShift1 0 0 0 0)))
          (machineOf [0x80000000; 0x12000000; 0; 0xFF000000])) (Rid (0 + 1))
  = duplicateUpperBitsAndShift1 0x12000000.
Proof.
  apply (Vec4DuplicateUpperBitsAndShift1_lanes Rid exactOps
           (mkIRInst Vec4DuplicateUpperBitsAndShift1 0 0 0 0)
           (machineOf [0x80000000; 0x12000000; 0; 0xFF000000])).
  - reflexivity.
  - left. reflexivity.
  - apply Rid_injOn. repeat constructor; vm_compute; discriminate.
  - intros i Hi. assert (i = 0 \/ i = 1 \/ i = 2 \/ i = 3) as C by lia.
    destruct C as [-> | [-> | [-> | ->]]]; simpl; lia.
  - lia.
Defined.

Lemma dup_range x : 0 <= x < 2 ^ 32 -> 0 <= duplicateUpperBitsAndShift1 x < 2 ^ 32.
Proof.
  intros H. unfold duplicateUpperBitsAndShift1. cbv zeta.
  apply shiftr_range; [|lia].
  assert (0 <= Z.lor x (Z.shiftr x 8) < 2 ^ 32) as Hy
    by (apply lor_range; [assumption | apply shiftr_range; [assumption | lia]]).
  apply lor_range; [assumption | apply shiftr_range; [assumption | lia]].
Qed.

(** The byte moved to bits 31..24, duplicated downwards and shifted right
    by one, has the byte again in bits 30..23. *)
Lemma packByte_dup b : 0 <= b < 256 ->
  packByte (duplicateUpperBitsAndShift1 (Z.shiftl b 24)) = b.
Proof.
  assert (forallb (fun b => packByte (duplicateUpperBitsAndShift1 (Z.shiftl b 24)) =? b)
                  imm8 = true) as H by (vm_compute; reflexivity).
  rewrite forallb_forall in H. intros Hb.
  apply Z.eqb_eq, H, imm8_complete, Hb.
Qed.

Lemma bytes_of_word x : 0 <= x < 2 ^ 32 ->
  byteOf x 0 + byteOf x 1 * 2 ^ 8 + byteOf x 2 * 2 ^ 16 + byteOf x 3 * 2 ^ 24 = x.
Proof.
  intros H. unfold byteOf. rewrite !land255, !Z.shiftr_div_pow2 by lia.
  Z.div_mod_to_equations. lia.
Qed.

(** X2: unpacking a 32-bit word with Vec4Unpack8To32, duplicating the upper
    bits of the four lanes with Vec4DuplicateUpperBitsAndShift1 (in place
    or into a disjoint group) and packing them with Vec4Pack31To8 gives the
    original word back, for every 32-bit word. *)
Theorem unpack_dup_pack_roundtrip R fp unpack dup pack s x :
  op unpack = Vec4Unpack8To32 ->
  op dup = Vec4DuplicateUpperBitsAndShift1 ->
  op pack = Vec4Pack31To8 ->
  src1 dup = dest unpack ->
  src1 pack = dest dup ->
  dest dup = dest unpack \/ disjointGroups (dest dup) (dest unpack) ->
  injOnRegs R (group (dest dup) ++ group (dest unpack)) ->
  getF s (R (src1 unpack)) = x ->
  0 <= x < 2 ^ 32 ->
  unpackDupPack R fp unpack dup pack s = x.
Proof.
  intros Hu Hd Hp Sd Sp Hg Hinj Hx Hr. unfold unpackDupPack.
  assert (injOnRegs R (group (dest unpack))) as Hinju
    by (intros a b Ha Hb; apply Hinj; rewrite in_app_iff; now right).
  set (s1 := exec fp (code (CompIR_VecPack R unpack)) s).
  assert (forall i, 0 <= i < 4 ->
            getF s1 (R (src1 dup + i)) = Z.shiftl (byteOf x i) 24) as L1.
  { intros i Hi. rewrite Sd. subst s1. now apply unpack_exec_lane. }
  assert (forall i, 0 <= i < 4 -> 0 <= getF s1 (R (src1 dup + i)) < 2 ^ 32) as R1.
  { intros i Hi. rewrite (L1 i Hi). apply shifted_byte_bits. lia. }
  set (s2 := exec fp (code (CompIR_VecPack R dup)) s1).
  assert (forall i, 0 <= i < 4 ->
            getF s2 (R (src1 pack + i))
            = duplicateUpperBitsAndShift1 (Z.shiftl (byteOf x i) 24)) as L2.
  { intros i Hi. rewrite Sp. subst s2.
    rewrite (dup_inst_exec R fp dup s1 Hd) by first [assumption | rewrite Sd; assumption].
    now rewrite (L1 i Hi). }
  assert (forall i, 0 <= i < 4 -> 0 <= getF s2 (R (src1 pack + i)) < 2 ^ 32) as R2.
  { intros i Hi. rewrite (L2 i Hi). apply dup_range, shifted_byte_bits. lia. }
  rewrite (pack_exec R fp pack s2 _ _ _ _ Hp
             (L2 0 ltac:(lia)) ltac:(rewrite <- L2 by lia; apply R2; lia)
             (L2 1 ltac:(lia)) ltac:(rewrite <- L2 by lia; apply R2; lia)
             (L2 2 ltac:(lia)) ltac:(rewrite <- L2 by lia; apply R2; lia)
             (L2 3 ltac:(lia)) ltac:(rewrite <- L2 by lia; apply R2; lia)).
  rewrite !packByte_dup by apply byteOf_range.
  now apply bytes_of_word.
Qed.

Lemma unpack_dup_pack_roundtrip_witness :
  unpackDupPack Rid exactOps (mkIRInst Vec4Unpack8To32 4 0 0 0)
    (mkIRInst Vec4DuplicateUpperBitsAndShift1 4 4 0 0)
    (mkIRInst Vec4Pack31To8 0 4 0 0) (machineOf [0x80FF7F01]) = 0x80FF7F01.
Proof.
  apply unpack_dup_pack_roundtrip; try reflexivity.
  - left. reflexivity.
  - apply Rid_injOn. repeat constructor; vm_compute; discriminate.
  - simpl; lia.
Defined.

(** X3: for every Vec4Pack31To8 instruction, byte i of the word left in the
    destination is bits 30..23 of source lane i; bit 31 and bits 22..0 of
    the lanes play no part, and the destination may be any register, one
    of the source lanes included. *)
Theorem Vec4Pack31To8_word R fp inst s :
  op inst = Vec4Pack31To8 ->
  (forall i, 0 <= i < 4 -> 0 <= getF s (R (src1 inst + i)) < 2 ^ 32) ->
  let y := getF (exec fp (code (CompIR_VecPack R inst)) s) (R (dest inst)) in
  0 <= y < 2 ^ 32 /\
  forall i, 0 <= i < 4 ->
    byteOf y i = Z.land (Z.shiftr (getF s (R (src1 inst + i))) 23) 255.
Proof.
  intros Hop Hr y. subst y.
  rewrite (pack_exec R fp inst s _ _ _ _ Hop
             eq_refl (Hr 0 ltac:(lia)) eq_refl (Hr 1 ltac:(lia))
             eq_refl (Hr 2 ltac:(lia)) eq_refl (Hr 3 ltac:(lia))).
  fold (packByte (getF s (R (src1 inst + 0)))).
  pose proof (packByte_range (getF s (R (src1 inst + 0)))) as B0.
  pose proof (packByte_range (getF s (R (src1 inst + 1)))) as B1.
  pose proof (packByte_range (getF s (R (src1 inst + 2)))) as B2.
  pose proof (packByte_range (getF s (R (src1 inst + 3)))) as B3.
  split; [cbn; lia|].
  intros i Hi. assert (i = 0 \/ i = 1 \/ i = 2 \/ i = 3) as C by lia.
  destruct C as [-> | [-> | [-> | ->]]];
    match goal with
    | |- _ = Z.land (Z.shiftr ?l 23) 255 => fold (packByte l)
    end;
    unfold byteOf; rewrite land255, Z.shiftr_div_pow2 by lia;
    Z.div_mod_to_equations; lia.
Qed.

Lemma Vec4Pack31To8_word_witness :
  byteOf (getF (exec exactOps (code (CompIR_VecPack Rid (mkIRInst Vec4Pack31To8 0 0 0 0)))
                 (machineOf [0x3F800000; 0xBF800000; 0x7FFFFFFF; 0x00800000]))
               (Rid 0)) 2
  = Z.land (Z.shiftr 0x7FFFFFFF 23) 255.
Proof.
  apply (Vec4Pack31To8_word Rid exactOps (mkIRInst Vec4Pack31To8 0 0 0 0)
           (machineOf [0x3F800000; 0xBF800000; 0x7FFFFFFF; 0x00800000])).
  - reflexivity.
  - intros i Hi. assert (i = 0 \/ i = 1 \/ i = 2 \/ i = 3) as C by lia.
    destruct C as [-> | [-> | [-> | ->]]]; simpl; lia.
  - lia.
Defined.

Lemma pack32to16_low lo : 0 <= lo < 2 ^ 32 ->
  wrap64 (Z.shiftr (wrap64 (Z.shiftl (wrap64 (signed32 lo)) 32)) 48) = lo / 2 ^ 16.
Proof.
  intros H. unfold wrap64, signed32.
  rewrite Z.shiftl_mul_pow2, Z.shiftr_div_pow2 by lia.
  Z.div_mod_to_equations. lia.
Qed.

Lemma pack32to16_high hi : 0 <= hi < 2 ^ 32 ->
  wrap64 (Z.shiftl (wrap64 (Z.shiftr (wrap64 (signed32 hi)) 16)) 16)
  = Z.shiftl (wrap64 (signed32 hi) / 2 ^ 16) 16.
Proof.
  intros H. rewrite Z.shiftr_div_pow2 by lia. unfold wrap64 at 1 2.
  rewrite (Z.mod_small (wrap64 (signed32 hi) / 2 ^ 16)).
  - apply Z.mod_small. rewrite Z.shiftl_mul_pow2 by lia.
    unfold wrap64, signed32. Z.div_mod_to_equations. lia.
  - unfold wrap64, signed32. Z.div_mod_to_equations. lia.
Qed.

(** X4: for every Vec2Pack32To16 instruction the destination ends with the
    upper 16 bits of lane src1 in its low half and the upper 16 bits of
    lane src1 + 1 in its high half; both lanes are read before the
    destination is written, so the destination may be either of them. *)
Theorem Vec2Pack32To16_word R fp inst s lo hi :
  op inst = Vec2Pack32To16 ->
  getF s (R (src1 inst)) = lo -> 0 <= lo < 2 ^ 32 ->
  getF s (R (src1 inst + 1)) = hi -> 0 <= hi < 2 ^ 32 ->
  getF (exec fp (code (CompIR_VecPack R inst)) s) (R (dest inst))
  = lo / 2 ^ 16 + (hi / 2 ^ 16) * 2 ^ 16.
Proof.
  intros Hop Hlo Rlo Hhi Rhi. unfold CompIR_VecPack. rewrite Hop.
  cbn [code]. rewrite code_emit.
  change (XLEN - 32) with 32. change (XLEN - 16) with 48.
  rewrite !exec_cons. cbn [step]. unfold exec; cbn [fold_left].
  regs. rewrite Hlo, Hhi.
  rewrite pack32to16_low, pack32to16_high by assumption.
  rewrite lor_shiftl_add by first [lia | Z.div_mod_to_equations; lia].
  unfold wrap32, wrap64, signed32. Z.div_mod_to_equations. lia.
Qed.

Lemma Vec2Pack32To16_word_witness :
  getF (exec exactOps (code (CompIR_VecPack Rid (mkIRInst Vec2Pack32To16 0 0 0 0)))
          (machineOf [0x12345678; 0x9ABCDEF0])) (Rid 0)
  = 0x12345678 / 2 ^ 16 + (0x9ABCDEF0 / 2 ^ 16) * 2 ^ 16.
Proof.
  apply Vec2Pack32To16_word; try reflexivity; simpl; lia.
Defined.

(** ** Vec4Init and Vec4Mov *)

Lemma Vec4Init_code R tempReg inst :
  op inst = Vec4Init ->
  code (CompIR_VecAssign R tempReg inst) = vec4InitCode R (dest inst) (src1 inst).
Proof.
  intros Hop. unfold CompIR_VecAssign. rewrite Hop.
  rewrite !code_app, !code_fprCalls, code_emit. reflexivity.
Qed.

Ltac fregs Hinj :=
  repeat first
    [ rewrite getF_setF_eq
    | rewrite getF_setX
    | rewrite getF_setF_neq by (intros E; regs_clash Hinj) ].

(** X5: for every Vec4Init instruction with one of the seven initializers,
    the four destination lanes end with the patterns of that initializer:
    all 0.0, all 1.0, all -1.0, or 1.0 in one lane and 0.0 in the others
    (on a host whose integer-to-float conversion of 0 gives the pattern 0). *)
Theorem Vec4Init_lanes R tempReg fp inst s :
  op inst = Vec4Init ->
  0 <= src1 inst <= 6 ->
  injOnRegs R (group (dest inst)) ->
  fcvt_s_w fp 0 = 0 ->
  forall i, 0 <= i < 4 ->
    getF (exec fp (code (CompIR_VecAssign R tempReg inst)) s) (R (dest inst + i))
    = vec4InitLane (src1 inst) i.
Proof.
  intros Hop Hw Hinj Hcvt i Hi. rewrite (Vec4Init_code _ _ _ Hop).
  assert (src1 inst = 0 \/ src1 inst = 1 \/ src1 inst = 2 \/ src1 inst = 3 \/
          src1 inst = 4 \/ src1 inst = 5 \/ src1 inst = 6) as W by lia.
  assert (i = 0 \/ i = 1 \/ i = 2 \/ i = 3) as C by lia.
  destruct W as [-> | [-> | [-> | [-> | [-> | [-> | ->]]]]]];
    destruct C as [-> | [-> | [-> | ->]]];
    unfold vec4InitCode, forLanes, lanes4;
    cbn [Z.eqb Pos.eqb flat_map app];
    rewrite ?Z.add_0_r;
    rewrite !exec_cons; cbn [step]; unfold exec; cbn [fold_left];
    fregs Hinj; regs; cbn [getX];
    first [ reflexivity
          | change (signed32 0) with 0; rewrite Hcvt; reflexivity ].
Qed.

Lemma Vec4Init_lanes_witness :
  getF (exec exactOps (code (CompIR_VecAssign Rid 31%nat (mkIRInst Vec4Init 4 5 0 0)))
          (machineOf [7; 7; 7; 7; 7; 7; 7; 7])) (Rid (4 + 2))
  = vec4InitLane 5 2.
Proof.
  apply (Vec4Init_lanes Rid 31%nat exactOps (mkIRInst Vec4Init 4 5 0 0)).
  - reflexivity.
  - simpl; lia.
  - apply Rid_injOn. repeat constructor; vm_compute; discriminate.
  - reflexivity.
  - lia.
Defined.

(** X6: a Vec4Init instruction whose initializer is none of the seven
    enumerators matches no case of the inner switch: the routine locks,
    maps and releases the destination lanes and emits no instruction, so
    the lanes, mapped without their old value, are left uninitialized. *)
Theorem Vec4Init_unknown_initializer R tempReg inst :
  op inst = Vec4Init ->
  src1 inst < 0 \/ 6 < src1 inst ->
  code (CompIR_VecAssign R tempReg inst) = [] /\
  calls (CompIR_VecAssign R tempReg inst)
  = map SpillLock (group (dest inst)) ++
    map (fun r => MapReg r NOINIT) (group (dest inst)) ++
    map ReleaseSpillLock (group (dest inst)).
Proof.
  intros Hop Hw. split.
  - rewrite (Vec4Init_code _ _ _ Hop). unfold vec4InitCode.
    decide_Z. reflexivity.
  - unfold CompIR_VecAssign. rewrite Hop.
    rewrite !calls_app, !calls_fprCalls, calls_emit, app_nil_r. reflexivity.
Qed.

Lemma Vec4Init_unknown_initializer_witness :
  code (CompIR_VecAssign Rid 31%nat (mkIRInst Vec4Init 4 7 0 0)) = [].
Proof.
  apply (Vec4Init_unknown_initializer Rid 31%nat (mkIRInst Vec4Init 4 7 0 0)).
  - reflexivity.
  - right. simpl. lia.
Defined.

(** X7: for every Vec4Mov instruction whose destination group is the source
    group or shares no register with it, every destination lane ends with
    the original content of the same lane of the source. *)
Theorem Vec4Mov_lanes R tempReg fp inst s :
  op inst = Vec4Mov ->
  dest inst = src1 inst \/ disjointGroups (dest inst) (src1 inst) ->
  injOnRegs R (group (dest inst) ++ group (src1 inst)) ->
  forall i, 0 <= i < 4 ->
    getF (exec fp (code (CompIR_VecAssign R tempReg inst)) s) (R (dest inst + i))
    = getF s (R (src1 inst + i)).
Proof.
  intros Hop Hg Hinj i Hi. unfold disjointGroups in Hg.
  assert (code (CompIR_VecAssign R tempReg inst)
          = moves (map (fun i => (R (dest inst + i), R (src1 inst + i))) lanes4)) as ->.
  { unfold CompIR_VecAssign. rewrite Hop. cbn [code]. now rewrite code_emit. }
  apply (exec_hazardFree _ _ []).
  - no_hazard Hinj.
  - apply (in_map (fun i => (R (dest inst + i), R (src1 inst + i)))).
    unfold lanes4; simpl; lia.
Qed.

Lemma Vec4Mov_lanes_witness :
  getF (exec exactOps (code (CompIR_VecAssign Rid 31%nat (mkIRInst Vec4Mov 4 0 0 0)))
          (machineOf [10; 11; 12; 13])) (Rid (4 + 3)) = 13.
Proof.
  apply (Vec4Mov_lanes Rid 31%nat exactOps (mkIRInst Vec4Mov 4 0 0 0)
           (machineOf [10; 11; 12; 13])).
  - reflexivity.
  - right. unfold disjointGroups. simpl. lia.
  - apply Rid_injOn. repeat constructor; vm_compute; discriminate.
  - lia.
Defined.

(** X8: Vec4Blend looks at the low four bits of its constant only: two
    Vec4Blend instructions on the same registers whose constants agree
    modulo 16 compile to the same code. *)
Theorem Vec4Blend_mask_low_bits R tempReg inst inst' :
  op inst = Vec4Blend -> op inst' = Vec4Blend ->
  dest inst' = dest inst -> src1 inst' = src1 inst -> src2 inst' = src2 inst ->
  constant inst' mod 16 = constant inst mod 16 ->
  code (CompIR_VecAssign R tempReg inst') = code (CompIR_VecAssign R tempReg inst).
Proof.
  intros Hop Hop' Hd H1 H2 Hc.
  rewrite (Vec4Blend_code _ _ _ Hop), (Vec4Blend_code _ _ _ Hop'), Hd, H1, H2.
  assert (forall i, 0 <= i < 4 ->
            Z.testbit (constant inst') i = Z.testbit (constant inst) i) as Hb.
  { intros i Hi.
    rewrite <- (Z.mod_pow2_bits_low (constant inst') 4 i) by lia.
    rewrite <- (Z.mod_pow2_bits_low (constant inst) 4 i) by lia.
    change (2 ^ 4) with 16. now rewrite Hc. }
  cbn [lanes4 map].
  rewrite !land1_testbit by lia.
  now rewrite (Hb 0), (Hb 1), (Hb 2), (Hb 3) by lia.
Qed.

Lemma Vec4Blend_mask_low_bits_witness :
  code (CompIR_VecAssign Rid 31%nat (mkIRInst Vec4Blend 0 4 8 0xF5))
  = code (CompIR_VecAssign Rid 31%nat (mkIRInst Vec4Blend 0 4 8 5)).
Proof.
  apply Vec4Blend_mask_low_bits; reflexivity.
Defined.

(** ** Lane-wise arithmetic *)

Lemma VecArith_code R inst mk :
  In (op inst, mk) [(Vec4Add, FADD); (Vec4Sub, FSUB); (Vec4Mul, FMUL); (Vec4Div, FDIV)] ->
  code (CompIR_VecArith R inst)
  = flat_map (fun i => [mk (R (dest inst + i)) (R (src1 inst + i)) (R (src2 inst + i))])
             lanes4.
Proof.
  intros Hin. unfold CompIR_VecArith. cbn [In] in Hin.
  destruct Hin as [E | [E | [E | [E | []]]]]; injection E as Ho Hm;
    rewrite <- Ho, <- Hm; cbn [code]; now rewrite code_emit.
Qed.

(** X9: for every Vec4Add, Vec4Sub, Vec4Mul and Vec4Div instruction in
    which each source group is the destination group or shares no register
    with it, destination lane i ends with the operation applied to the
    original lanes i of the two sources. *)
Theorem VecArith_lanes R fp inst s f :
  arithOp fp (op inst) = Some f ->
  dest inst = src1 inst \/ disjointGroups (dest inst) (src1 inst) ->
  dest inst = src2 inst \/ disjointGroups (dest inst) (src2 inst) ->
  injOnRegs R (group (dest inst) ++ group (src1 inst) ++ group (src2 inst)) ->
  forall i, 0 <= i < 4 ->
    getF (exec fp (code (CompIR_VecArith R inst)) s) (R (dest inst + i))
    = f (getF s (R (src1 inst + i))) (getF s (R (src2 inst + i))).
Proof.
  intros Hf H1 H2 Hinj i Hi.
  assert (exists mk,
            In (op inst, mk) [(Vec4Add, FADD); (Vec4Sub, FSUB); (Vec4Mul, FMUL);
                              (Vec4Div, FDIV)] /\
            forall st rd ra rb,
              step fp st (mk rd ra rb) = setF st rd (f (getF st ra) (getF st rb)))
    as (mk & Hin & Hstep).
  { destruct (op inst); try discriminate; inversion Hf; subst f;
      [exists FADD | exists FSUB | exists FMUL | exists FDIV];
      (split; [cbn; tauto | reflexivity]). }
  rewrite (VecArith_code R inst mk Hin).
  unfold lanes4. cbn [flat_map]. rewrite app_nil_r.
  apply (lanewise_exec fp R
           (fun i => [mk (R (dest inst + i)) (R (src1 inst + i)) (R (src2 inst + i))])
           f (fun _ => True) (dest inst) (src1 inst) (src2 inst));
    try assumption; [|auto].
  intros j st Hj _. rewrite exec_cons, Hstep. unfold exec; cbn [fold_left]. split.
  - apply getF_setF_eq.
  - intros r Hr. now apply getF_setF_neq.
Qed.

Lemma VecArith_lanes_witness :
  getF (exec exactOps (code (CompIR_VecArith Rid (mkIRInst Vec4Sub 0 0 4 0)))
          (machineOf [10; 11; 12; 13; 1; 2; 3; 4])) (Rid (0 + 2))
  = 12 - 3.
Proof.
  apply (VecArith_lanes Rid exactOps (mkIRInst Vec4Sub 0 0 4 0)
           (machineOf [10; 11; 12; 13; 1; 2; 3; 4]) Z.sub).
  - reflexivity.
  - left. reflexivity.
  - right. unfold disjointGroups. simpl. lia.
  - apply Rid_injOn. repeat constructor; vm_compute; discriminate.
  - lia.
Defined.

(** X10: for every Vec4Scale instruction whose scalar register is not one
    of the first three destination lanes, and whose destination group is
    the source group or shares no register with it, destination lane i ends
    with original source lane i times the original scalar.  (The scalar is
    read again for every lane, so it must not be overwritten before the
    last lane.) *)
Theorem Vec4Scale_lanes R fp inst s :
  op inst = Vec4Scale ->
  src2 inst < dest inst \/ dest inst + 3 <= src2 inst ->
  dest inst = src1 inst \/ disjointGroups (dest inst) (src1 inst) ->
  injOnRegs R (src2 inst :: group (dest inst) ++ group (src1 inst)) ->
  forall i, 0 <= i < 4 ->
    getF (exec fp (code (CompIR_VecArith R inst)) s) (R (dest inst + i))
    = fmul fp (getF s (R (src1 inst + i))) (getF s (R (src2 inst))).
Proof.
  intros Hop Hs Hg Hinj i Hi. unfold disjointGroups in Hg.
  unfold CompIR_VecArith. rewrite Hop.
  rewrite !code_app, !code_fprCalls, code_emit.
  unfold forLanes, lanes4. cbn [flat_map app].
  rewrite !exec_cons. cbn [step]. unfold exec; cbn [fold_left].
  assert (i = 0 \/ i = 1 \/ i = 2 \/ i = 3) as C by lia.
  destruct Hg as [Hd | Hd]; [rewrite <- Hd in * |];
    destruct C as [-> | [-> | [-> | ->]]]; fregs Hinj; reflexivity.
Qed.

Lemma Vec4Scale_lanes_witness :
  getF (exec exactOps (code (CompIR_VecArith Rid (mkIRInst Vec4Scale 0 0 3 0)))
          (machineOf [2; 3; 5; 7])) (Rid (0 + 1))
  = 3 * 7.
Proof.
  apply (Vec4Scale_lanes Rid exactOps (mkIRInst Vec4Scale 0 0 3 0)
           (machineOf [2; 3; 5; 7])).
  - reflexivity.
  - right. simpl. lia.
  - left. reflexivity.
  - apply Rid_injOn. repeat constructor; vm_compute; discriminate.
  - lia.
Defined.

Lemma signOp_inst_exec R fp inst s mk (f : Z -> Z) :
  In (op inst, mk) [(Vec4Neg, FNEG); (Vec4Abs, FABS)] ->
  (forall st rd rs, step fp st (mk rd rs) = setF st rd (f (getF st rs))) ->
  dest inst = src1 inst \/ disjointGroups (dest inst) (src1 inst) ->
  injOnRegs R (group (dest inst) ++ group (src1 inst)) ->
  forall i, 0 <= i < 4 ->
    getF (exec fp (code (CompIR_VecArith R inst)) s) (R (dest inst + i))
    = f (getF s (R (src1 inst + i))).
Proof.
  intros Hin Hstep Hg Hinj i Hi.
  assert (code (CompIR_VecArith R inst)
          = flat_map (fun i => [mk (R (dest inst + i)) (R (src1 inst + i))]) lanes4) as ->.
  { unfold CompIR_VecArith. cbn [In] in Hin.
    destruct Hin as [E | [E | []]]; injection E as Ho Hm;
      rewrite <- Ho, <- Hm; cbn [code]; now rewrite code_emit. }
  unfold lanes4. cbn [flat_map]. rewrite app_nil_r.
  apply (lanewise_exec fp R
           (fun i => [mk (R (dest inst + i)) (R (src1 inst + i))])
           (fun x _ => f x) (fun _ => True)
           (dest inst) (src1 inst) (src1 inst));
    try assumption; [| now apply injOn_dup | auto].
  intros j st Hj _. rewrite exec_cons, Hstep. unfold exec; cbn [fold_left]. split.
  - apply getF_setF_eq.
  - intros r Hr. now apply getF_setF_neq.
Qed.

(** X11: for every Vec4Neg and Vec4Abs instruction whose destination group
    is the source group or shares no register with it, each destination
    lane ends with the original source lane with its sign bit (bit 31)
    flipped, respectively cleared, and bits 30..0 unchanged. *)
Theorem Vec4Neg_Abs_lanes R fp inst s i n :
  dest inst = src1 inst \/ disjointGroups (dest inst) (src1 inst) ->
  injOnRegs R (group (dest inst) ++ group (src1 inst)) ->
  0 <= i < 4 -> 0 <= n < 32 ->
  let x := getF s (R (src1 inst + i)) in
  let y := getF (exec fp (code (CompIR_VecArith R inst)) s) (R (dest inst + i)) in
  (op inst = Vec4Neg ->
   Z.testbit y n = if n =? 31 then negb (Z.testbit x n) else Z.testbit x n) /\
  (op inst = Vec4Abs ->
   Z.testbit y n = if n =? 31 then false else Z.testbit x n).
Proof.
  intros Hg Hinj Hi Hn x y. subst x y. split; intros Hop.
  - rewrite (signOp_inst_exec R fp inst s FNEG (fun v => Z.lxor v 0x80000000))
      by (try assumption; try reflexivity; rewrite Hop; cbn; tauto).
    rewrite Z.lxor_spec. change 0x80000000 with (2 ^ 31).
    rewrite Z.pow2_bits_eqb by lia. rewrite (Z.eqb_sym 31 n).
    destruct (n =? 31); destruct (Z.testbit _ n); reflexivity.
  - rewrite (signOp_inst_exec R fp inst s FABS (fun v => Z.land v 0x7FFFFFFF))
      by (try assumption; try reflexivity; rewrite Hop; cbn; tauto).
    rewrite Z.land_spec. change 0x7FFFFFFF with (Z.ones 31).
    destruct (Z.eqb_spec n 31) as [->|Hne].
    + rewrite Z.ones_spec_high by lia. apply andb_false_r.
    + rewrite Z.ones_spec_low by lia. apply andb_true_r.
Qed.

Lemma Vec4Neg_Abs_lanes_witness :
  Z.testbit (getF (exec exactOps (code (CompIR_VecArith Rid (mkIRInst Vec4Neg 0 0 0 0)))
                     (machineOf [0x3F800000; 0; 0; 0])) (Rid (0 + 0))) 31
  = negb (Z.testbit 0x3F800000 31).
Proof.
  assert (injOnRegs Rid (group 0 ++ group 0)) as Hinj
    by (apply Rid_injOn; repeat constructor; vm_compute; discriminate).
  apply (proj1 (Vec4Neg_Abs_lanes Rid exactOps (mkIRInst Vec4Neg 0 0 0 0)
                  (machineOf [0x3F800000; 0; 0; 0]) 0 31
                  (or_introl eq_refl) Hinj ltac:(lia) ltac:(lia))).
  reflexivity.
Defined.

(** X12: Vec4Abs followed by Vec4ClampToZero on its result (in place or
    into a disjoint group): the clamp passes every lane through, for any
    contents of the source of the Vec4Abs. *)
Theorem Vec4Abs_then_clamp R zbb fp absI clampI s :
  op absI = Vec4Abs ->
  op clampI = Vec4ClampToZero ->
  src1 clampI = dest absI ->
  dest absI = src1 absI \/ disjointGroups (dest absI) (src1 absI) ->
  dest clampI = dest absI \/ disjointGroups (dest clampI) (dest absI) ->
  injOnRegs R (group (dest absI) ++ group (src1 absI)) ->
  injOnRegs R (group (dest clampI) ++ group (dest absI)) ->
  forall i, 0 <= i < 4 ->
    getF (exec fp (code (CompIR_VecClamp R zbb clampI))
            (exec fp (code (CompIR_VecArith R absI)) s)) (R (dest clampI + i))
    = Z.land (getF s (R (src1 absI + i))) 0x7FFFFFFF.
Proof.
  intros Ha Hc Hs Hga Hgc Hia Hic i Hi.
  set (s1 := exec fp (code (CompIR_VecArith R absI)) s).
  assert (forall j, 0 <= j < 4 ->
            getF s1 (R (src1 clampI + j)) = Z.land (getF s (R (src1 absI + j))) 0x7FFFFFFF)
    as L.
  { intros j Hj. rewrite Hs. subst s1.
    apply (signOp_inst_exec R fp absI s FABS (fun v => Z.land v 0x7FFFFFFF));
      try assumption; try reflexivity. rewrite Ha. cbn. tauto. }
  assert (forall v, 0 <= Z.land v 0x7FFFFFFF < 2 ^ 31) as Rg.
  { intros v. change 0x7FFFFFFF with (Z.ones 31). rewrite Z.land_ones by lia.
    apply Z.mod_pos_bound. lia. }
  rewrite (Vec4ClampToZero_inst R zbb fp clampI s1 Hc)
    by first [ assumption | rewrite Hs; assumption
             | intros j Hj; rewrite (L j Hj); specialize (Rg (getF s (R (src1 absI + j)))); lia ].
  rewrite (L i Hi). unfold clampToZero.
  rewrite testbit31 by (specialize (Rg (getF s (R (src1 absI + i)))); lia).
  destruct (Z.leb_spec (2 ^ 31) (Z.land (getF s (R (src1 absI + i))) 0x7FFFFFFF));
    [specialize (Rg (getF s (R (src1 absI + i)))); lia | reflexivity].
Qed.

Lemma Vec4Abs_then_clamp_witness :
  getF (exec exactOps (code (CompIR_VecClamp Rid false (mkIRInst Vec4ClampToZero 0 0 0 0)))
          (exec exactOps (code (CompIR_VecArith Rid (mkIRInst Vec4Abs 0 0 0 0)))
             (machineOf [0xBF800000; 1; 2; 3]))) (Rid (0 + 0))
  = Z.land 0xBF800000 0x7FFFFFFF.
Proof.
  assert (injOnRegs Rid (group 0 ++ group 0)) as Hinj
    by (apply Rid_injOn; repeat constructor; vm_compute; discriminate).
  apply (Vec4Abs_then_clamp Rid false exactOps (mkIRInst Vec4Abs 0 0 0 0)
           (mkIRInst Vec4ClampToZero 0 0 0 0) (machineOf [0xBF800000; 1; 2; 3])
           eq_refl eq_refl eq_refl (or_introl eq_refl) (or_introl eq_refl)
           Hinj Hinj 0).
  lia.
Defined.

(** ** Vec4Dot in any arithmetic *)

Ltac dot_fused_lane k Hop Hinj :=
  rewrite (Vec4Dot_code _ _ Hop);
  unfold dotOverlaps, dotLaneAliased, forLanes, lanes4; cbn [flat_map];
  decide_Z; cbn [andb orb app];
  unfold dotMul, dotMadd;
  rewrite exec_mul_madd3 by (intros E; regs_clash Hinj);
  reflexivity.

(** X13: in any floating-point arithmetic, the value Vec4Dot leaves in the
    destination is one multiply followed by three fused multiply-adds on
    the original source lanes: lanes 0, 1, 2, 3 in that order when the
    destination is none of the source lane registers (whatever the overlap
    of the two source groups), and lane k first, then the other lanes in
    lane order, when the destination is lane k of a source and the source
    groups are the same group or share no register. *)
Theorem Vec4Dot_fused_order R fp inst s :
  op inst = Vec4Dot ->
  injOnRegs R (dest inst :: group (src1 inst) ++ group (src2 inst)) ->
  let y := getF (exec fp (code (CompIR_VecHoriz R inst)) s) (R (dest inst)) in
  (~ (src1 inst <= dest inst < src1 inst + 4) ->
   ~ (src2 inst <= dest inst < src2 inst + 4) ->
   y = dotFused R fp inst s 0 [1; 2; 3]) /\
  (forall k, 0 <= k < 4 ->
     dest inst = src1 inst + k \/ dest inst = src2 inst + k ->
     src1 inst = src2 inst \/ disjointGroups (src1 inst) (src2 inst) ->
     y = dotFused R fp inst s k (filter (fun j => negb (j =? k)) lanes4)).
Proof.
  intros Hop Hinj y. subst y. split.
  - intros N1 N2. rewrite (Vec4Dot_code _ _ Hop). unfold dotOverlaps.
    decide_Z; cbn [andb orb]; unfold dotMadd; cbn [map];
      rewrite exec_mul_madd3 by (intros E; regs_clash Hinj);
      unfold dotFused; cbn [fold_left]; now rewrite !Z.add_0_r.
  - intros k Hk Hal Hg. unfold disjointGroups in Hg.
    assert (k = 0 \/ k = 1 \/ k = 2 \/ k = 3) as C by lia.
    destruct C as [-> | [-> | [-> | ->]]].
    + dot_fused_lane 0 Hop Hinj.
    + dot_fused_lane 1 Hop Hinj.
    + dot_fused_lane 2 Hop Hinj.
    + dot_fused_lane 3 Hop Hinj.
Qed.

Lemma Vec4Dot_fused_order_witness :
  getF (exec exactOps (code (CompIR_VecHoriz Rid (mkIRInst Vec4Dot 8 0 2 0)))
          (machineOf [2; 3; 5; 7; 11; 13])) (Rid 8)
  = dotFused Rid exactOps (mkIRInst Vec4Dot 8 0 2 0)
             (machineOf [2; 3; 5; 7; 11; 13]) 0 [1; 2; 3].
Proof.
  assert (injOnRegs Rid (8 :: group 0 ++ group 2)) as Hinj
    by (apply Rid_injOn; repeat constructor; vm_compute; discriminate).
  apply (proj1 (Vec4Dot_fused_order Rid exactOps (mkIRInst Vec4Dot 8 0 2 0)
                  (machineOf [2; 3; 5; 7; 11; 13]) eq_refl Hinj)); simpl; lia.
Defined.

(** ** The in-place shuffle: bookkeeping and lane writes *)

(** X14: for every 8-bit immediate the bookkeeping of the in-place shuffle
    is sound: the [state] array ends equal to [goal], and the assertion
    that the wanted lane is found in [state] never fails. *)
Theorem shuffle_state_reaches_goal R tempReg d imm :
  0 <= imm < 256 ->
  fst (fst (shuffleInPlace R tempReg d imm)) = shuffleGoal imm /\
  snd (shuffleInPlace R tempReg d imm) = true.
Proof.
  revert imm. apply forall_imm8. unfold imm8.
  cbn [seq map Z.of_nat Pos.of_succ_nat Pos.succ].
  repeat (apply Forall_cons; [vm_compute; split; reflexivity|]).
  apply Forall_nil.
Qed.

Lemma shuffle_state_reaches_goal_witness :
  fst (fst (shuffleInPlace Rid 31%nat 0 0x1B)) = shuffleGoal 0x1B /\
  snd (shuffleInPlace Rid 31%nat 0 0x1B) = true.
Proof.
  apply shuffle_state_reaches_goal. lia.
Defined.

Lemma planWritesOnce_all imm : 0 <= imm < 256 -> planWritesOnce imm = true.
Proof.
  assert (forallb planWritesOnce imm8 = true) as H by (vm_compute; reflexivity).
  rewrite forallb_forall in H. intros Himm. now apply H, imm8_complete.
Qed.

(** X15: the in-place shuffle writes no lane twice and no lane that is
    already in place: for every 8-bit immediate, the emitted code has
    exactly one FMV into destination lane i when the selection of lane i
    is another lane, and none when lane i selects itself. *)
Theorem Vec4Shuffle_inplace_writes_once R tempReg inst i :
  op inst = Vec4Shuffle ->
  dest inst = src1 inst ->
  0 <= src2 inst < 256 ->
  injOnRegs R (group (dest inst)) ->
  (forall j, 0 <= j < 4 -> tempReg <> R (dest inst + j)) ->
  0 <= i < 4 ->
  laneWrites (R (dest inst + i)) (code (CompIR_VecAssign R tempReg inst))
  = if Z.land (Z.shiftr (src2 inst) (2 * i)) 3 =? i then 0%nat else 1%nat.
Proof.
  intros Hop Hd Himm Hinj Htemp Hi. unfold laneWrites.
  rewrite (Vec4Shuffle_inplace_code _ _ _ Hop Hd).
  rewrite shuffleInPlace_plan, movesOf_moves by assumption.
  pose proof (planChecks_all _ Himm) as Hc. unfold planChecks in Hc.
  apply andb_true_iff in Hc as [Hc _]. apply andb_true_iff in Hc as [Hbelow _].
  rewrite (count_rename R tempReg (dest inst)
             (fun p => Nat.eqb (fst p) (R (dest inst + i)))
             (fun p => Nat.eqb (fst p) (Z.to_nat i))); [| | assumption].
  - pose proof (planWritesOnce_all _ Himm) as Hw. unfold planWritesOnce in Hw.
    rewrite forallb_forall in Hw.
    assert (In i lanes4) as Hin by (unfold lanes4; simpl; lia).
    specialize (Hw i Hin). apply Nat.eqb_eq in Hw.
    now rewrite shuffleGoal_get in Hw by assumption.
  - intros a b Ha Hb. cbn [fst].
    rewrite <- (laneHost_lane R tempReg (dest inst) i Hi).
    destruct (Nat.eqb_spec a (Z.to_nat i)) as [->|Hne].
    + apply Nat.eqb_refl.
    + apply Nat.eqb_neq. intros E. apply Hne.
      apply (laneHost_inj R tempReg (dest inst) Htemp Hinj); [assumption | lia | exact E].
Qed.

Lemma Vec4Shuffle_inplace_writes_once_witness :
  laneWrites (Rid (0 + 2)) (code (CompIR_VecAssign Rid 31%nat (mkIRInst Vec4Shuffle 0 0 0xE1 0)))
  = 0%nat.
Proof.
  apply (Vec4Shuffle_inplace_writes_once Rid 31%nat (mkIRInst Vec4Shuffle 0 0 0xE1 0) 2).
  - reflexivity.
  - reflexivity.
  - simpl; lia.
  - apply Rid_injOn. repeat constructor; vm_compute; discriminate.
  - intros j Hj. unfold Rid. simpl. lia.
  - lia.
Defined.

(** ** All routines: spill locks, trace shape, registers left alone *)

(** X16: in every routine and for every instruction, each spill lock the
    routine takes is released by a later call of the same routine, by
    ReleaseSpillLock on that register or by
    ReleaseSpillLocksAndDiscardTemps. *)
Theorem spill_locks_released R tempReg zbb r inst :
  locksReleased (calls (CompIR R tempReg zbb r inst)).
Proof.
  destruct r; routine_calls; cbn [locksReleased releasedIn]; auto 20.
Qed.

Lemma fprCalls_app a b : fprCalls (a ++ b) = fprCalls a ++ fprCalls b.
Proof. apply map_app. Qed.

(** X17: a routine that compiles its instruction natively first makes all
    of its register-cache calls and only then emits instructions: its
    trace is its register-cache calls followed by its code. *)
Theorem native_trace_calls_then_code R tempReg zbb r inst :
  let t := CompIR R tempReg zbb r inst in
  nativeOnly t -> t = fprCalls (calls t) ++ emit (code t).
Proof.
  cbv zeta. destruct r; routine_trace; intros Hn; try discriminate Hn;
    cbn [calls code];
    rewrite ?calls_app, ?code_app, ?calls_fprCalls, ?code_fprCalls,
            ?calls_emit, ?code_emit;
    cbn [app]; rewrite ?app_nil_r, ?fprCalls_app, <- ?app_assoc; reflexivity.
Qed.

Lemma native_trace_calls_then_code_witness :
  let t := CompIR Rid 31%nat false VecHoriz (mkIRInst Vec4Dot 8 0 4 0) in
  t = fprCalls (calls t) ++ emit (code t).
Proof.
  cbv zeta.
  apply (native_trace_calls_then_code Rid 31%nat false VecHoriz
           (mkIRInst Vec4Dot 8 0 4 0)).
  reflexivity.
Defined.

Lemma exec_not_written fp prog : forall s h,
  Forall (fun i => fdest i <> Some h) prog ->
  getF (exec fp prog s) h = getF s h.
Proof.
  induction prog as [|i prog IH]; intros s h H; [reflexivity|].
  inversion H as [|? ? Hi Hrest]; subst. rewrite exec_cons, IH by assumption.
  destruct i; cbn [step fdest] in *;
    first [ apply getF_setX
          | apply getF_setF_neq; intros E; apply Hi; now rewrite E ].
Qed.

Lemma plan_not_written R tempReg d h plan :
  movesBelow 5 plan = true ->
  (forall i, 0 <= i < 4 -> h <> R (d + i)) -> h <> tempReg ->
  Forall (fun i => fdest i <> Some h) (moves (renameMoves (laneHost R tempReg d) plan)).
Proof.
  intros Hb Hl Ht. induction plan as [|[a b] t IH]; [constructor|].
  simpl in Hb. apply andb_true_iff in Hb as [Hab Hrest].
  apply andb_true_iff in Hab as [Ha _]. apply Nat.ltb_lt in Ha.
  constructor; [|now apply IH].
  cbn [fdest fst]. unfold laneHost. intros E. injection E as E.
  destruct (Nat.eqb_spec a 4).
  - now apply Ht.
  - apply (Hl (Z.of_nat a)); [lia | now symmetry].
Qed.

Ltac not_written Hl Ht H0 :=
  cbn [fdest];
  first [ discriminate
        | let E := fresh "E" in
          intros E; injection E as E; symmetry in E;
          first [ exact (Ht E) | exact (H0 E)
                | exact (Hl 0 ltac:(lia) E) | exact (Hl 1 ltac:(lia) E)
                | exact (Hl 2 ltac:(lia) E) | exact (Hl 3 ltac:(lia) E) ] ].

(** X18: the code of every routine writes no host float register other
    than those of the four destination lanes and, for the in-place
    shuffle, the temporary: every other float register, the source lanes
    outside the destination group included, holds after the code what it
    held before. *)
Theorem other_registers_unchanged R tempReg zbb fp r inst s h :
  0 <= src2 inst < 256 ->
  (forall i, 0 <= i < 4 -> h <> R (dest inst + i)) ->
  h <> tempReg ->
  getF (exec fp (code (CompIR R tempReg zbb r inst)) s) h = getF s h.
Proof.
  intros Himm Hl Ht.
  assert (h <> R (dest inst)) as H0
    by (intros E; apply (Hl 0 ltac:(lia)); now rewrite Z.add_0_r).
  apply exec_not_written.
  destruct r;
    unfold CompIR, CompIR_VecAssign, CompIR_VecArith, CompIR_VecHoriz,
           CompIR_VecPack, CompIR_VecClamp, INVALIDOP;
    destruct (op inst) eqn:Hop;
    try (cbn [code]; constructor);
    cbn [code];
    rewrite ?code_app, ?code_fprCalls, ?code_emit; cbn [app].
  all: try (destruct (Z.eqb_spec (dest inst) (src1 inst));
            [ unfold CompIR_VecAssign; cbn [code]; rewrite code_emit, shuffleInPlace_plan by assumption;
              apply plan_not_written; try assumption;
              pose proof (planChecks_all _ Himm) as Hc; unfold planChecks in Hc;
              apply andb_true_iff in Hc as [Hc _]; apply andb_true_iff in Hc as [Hc _];
              exact Hc
            | cbn [code]; rewrite code_emit ]).
  all: unfold vec4InitCode, forLanes, lanes4, clampLane, unpackLane, packLane;
       cbn [flat_map app negb Z.eqb Pos.eqb];
       repeat match goal with
              | |- context [if ?b then _ else _] => destruct b
              end;
       cbn [flat_map app];
       repeat (apply Forall_cons || apply Forall_nil);
       not_written Hl Ht H0.
Qed.

Lemma other_registers_unchanged_witness :
  getF (exec exactOps
          (code (CompIR Rid 31%nat false VecAssign (mkIRInst Vec4Shuffle 0 0 0x1B 0)))
          (machineOf [10; 11; 12; 13; 14; 15])) 5%nat
  = 15.
Proof.
  apply (other_registers_unchanged Rid 31%nat false exactOps VecAssign
           (mkIRInst Vec4Shuffle 0 0 0x1B 0) (machineOf [10; 11; 12; 13; 14; 15]) 5%nat).
  - simpl; lia.
  - intros i Hi. unfold Rid. simpl. lia.
  - lia.
Defined.

(** ** Vec4Unpack8To32 followed by Vec4DuplicateUpperBitsAndShift1 *)

Lemma dup_of_byte b : 0 <= b < 256 ->
  duplicateUpperBitsAndShift1 (Z.shiftl b 24) = (b * 0x01010101) / 2.
Proof.
  assert (forallb (fun b => duplicateUpperBitsAndShift1 (Z.shiftl b 24)
                            =? (b * 0x01010101) / 2) imm8 = true) as H
    by (vm_compute; reflexivity).
  rewrite forallb_forall in H. intros Hb.
  apply Z.eqb_eq, H, imm8_complete, Hb.
Qed.

(** X19: unpacking a 32-bit word with Vec4Unpack8To32 and then duplicating
    the upper bits of the lanes (in place or into a disjoint group) leaves
    in lane i byte i of the word repeated in all four byte positions,
    shifted right by one: (b * 0x01010101) >> 1. *)
Theorem unpack_then_dup_lanes R fp unpack dup s x i :
  op unpack = Vec4Unpack8To32 ->
  op dup = Vec4DuplicateUpperBitsAndShift1 ->
  src1 dup = dest unpack ->
  dest dup = dest unpack \/ disjointGroups (dest dup) (dest unpack) ->
  injOnRegs R (group (dest dup) ++ group (dest unpack)) ->
  getF s (R (src1 unpack)) = x ->
  0 <= x < 2 ^ 32 ->
  0 <= i < 4 ->
  getF (exec fp (code (CompIR_VecPack R dup))
          (exec fp (code (CompIR_VecPack R unpack)) s)) (R (dest dup + i))
  = (byteOf x i * 0x01010101) / 2.
Proof.
  intros Hu Hd Sd Hg Hinj Hx Hr Hi.
  assert (injOnRegs R (group (dest unpack))) as Hinju
    by (intros a b Ha Hb; apply Hinj; rewrite in_app_iff; now right).
  set (s1 := exec fp (code (CompIR_VecPack R unpack)) s).
  assert (forall j, 0 <= j < 4 ->
            getF s1 (R (src1 dup + j)) = Z.shiftl (byteOf x j) 24) as L1.
  { intros j Hj. rewrite Sd. subst s1. now apply unpack_exec_lane. }
  rewrite (dup_inst_exec R fp dup s1 Hd)
    by first [ assumption | rewrite Sd; assumption
             | intros j Hj; rewrite (L1 j Hj); apply shifted_byte_bits; lia ].
  rewrite (L1 i Hi). apply dup_of_byte, byteOf_range.
Qed.

Lemma unpack_then_dup_lanes_witness :
  getF (exec exactOps (code (CompIR_VecPack Rid (mkIRInst Vec4DuplicateUpperBitsAndShift1 4 4 0 0)))
          (exec exactOps (code (CompIR_VecPack Rid (mkIRInst Vec4Unpack8To32 4 0 0 0)))
             (machineOf [0x80FF7F01]))) (Rid (4 + 3))
  = (byteOf 0x80FF7F01 3 * 0x01010101) / 2.
Proof.
  apply (unpack_then_dup_lanes Rid exactOps (mkIRInst Vec4Unpack8To32 4 0 0 0)
           (mkIRInst Vec4DuplicateUpperBitsAndShift1 4 4 0 0)
           (machineOf [0x80FF7F01]) 0x80FF7F01 3); try reflexivity.
  - left. reflexivity.
  - apply Rid_injOn. repeat constructor; vm_compute; discriminate.
  - simpl; lia.
  - lia.
Defined.
